(** * email-mcp: the mailbox-session client (imap.ts) and the relay
      configuration (smtp.ts), embedded and verified

    The TypeScript sources are embedded shallowly:
    - JavaScript integers are [Z] (every number the code computes with is an
      integer far below 2^53, where JavaScript arithmetic is exact); [NaN],
      which only [parseInt] can produce here, is [None] in [option Z];
    - [string | undefined] is [option string]; objects used as dictionaries
      ([process.env], MIME parameters) are [gmap string string];
    - the ImapFlow client is a record of answers (one per method and
      argument) and every call is logged, so that an operation is a
      computation in a small state-and-exception monad over the call log. *)

From stdpp Require Import gmap strings list pretty sorting.
From Stdlib Require Import ZArith Lia Ascii.

Local Open Scope string_scope.
Local Open Scope list_scope.
Local Open Scope Z_scope.

(** ** JavaScript primitives the sources rely on *)

Module Js.

(** [if (s)] on a string: only the empty string is falsy. *)
Definition truthy (s : string) : bool := negb (String.eqb s "").

(** [if (v)] on a [string | undefined]. *)
Definition truthy_opt (v : option string) : bool :=
  match v with
  | Some s => truthy s
  | None => false
  end.

(** [a ?? b]: [b] only when [a] is [undefined]. *)
Definition nullish {A} (a b : option A) : option A :=
  match a with
  | Some x => Some x
  | None => b
  end.

(** [a ?? d] with a default that is always defined. *)
Definition nullish_or {A} (a : option A) (d : A) : A :=
  match a with
  | Some x => x
  | None => d
  end.

(** [String(n)] and [`${n}`] for an integer. *)
Definition String_ (n : Z) : string := pretty n.

(** [`${v}`] for a [string | undefined]. *)
Definition template (v : option string) : string :=
  nullish_or v "undefined".

(** [parseInt(s, 10)]: leading white space is skipped (the ASCII white
    space characters are modelled), then an optional sign, then the longest
    prefix of decimal digits; no digit gives [NaN]. *)
Definition is_ws (a : ascii) : bool :=
  let n := nat_of_ascii a in
  (Nat.eqb n 32 || (Nat.leb 9 n && Nat.leb n 13))%bool.

Fixpoint skip_ws (s : string) : string :=
  match s with
  | String a r => if is_ws a then skip_ws r else s
  | EmptyString => s
  end.

Definition digit_of (a : ascii) : option Z :=
  let n := Z.of_nat (nat_of_ascii a) in
  if ((48 <=? n) && (n <=? 57))%bool then Some (n - 48) else None.

Fixpoint digits (acc : option Z) (s : string) : option Z :=
  match s with
  | String a r =>
      match digit_of a with
      | Some d => digits (Some (10 * nullish_or acc 0 + d)) r
      | None => acc
      end
  | EmptyString => acc
  end.

Definition parseInt (s : string) : option Z :=
  match skip_ws s with
  | String "-" r => Z.opp <$> digits None r
  | String "+" r => digits None r
  | r => digits None r
  end.

(** [arr.slice(start)]: a negative [start] counts from the end, and both
    ends are clamped to the array. *)
Definition slice_from {A} (start : Z) (arr : list A) : list A :=
  let len := Z.of_nat (length arr) in
  let k := if start <? 0 then Z.max (len + start) 0 else Z.min start len in
  drop (Z.to_nat k) arr.

(** [arr.sort(cmp)]: the sort is stable, and for a consistent comparator
    its result is the one of a stable insertion sort: [a] stays before [b]
    unless [cmp(a, b) > 0]. *)
Section Sort.
Context {A : Type} (cmp : A -> A -> Z).

Fixpoint insert_sorted (x : A) (l : list A) : list A :=
  match l with
  | [] => [x]
  | y :: l' => if cmp x y <=? 0 then x :: l else y :: insert_sorted x l'
  end.

Definition sort (l : list A) : list A := foldr insert_sorted [] l.
End Sort.

(** [arr.join(sep)] on strings. *)
Definition join (sep : string) (l : list string) : string :=
  String.concat sep l.

(** A valid [Date]: its time value, in milliseconds since the epoch. *)
Record Date := { time_value : Z }.

(** Decimal digits of [n], padded with zeros on the left to [width]. *)
Fixpoint pad_go (width : nat) (n : Z) (acc : string) : string :=
  match width with
  | O => acc
  | S w => pad_go w (n / 10) (String (ascii_of_nat (Z.to_nat (48 + n mod 10))) acc)
  end.

Definition pad (width : nat) (n : Z) : string := pad_go width n "".

(** Year, month and day of a day number counted from 1970-01-01, in the
    proleptic Gregorian calendar that [Date] uses. *)
Definition civil_from_days (day : Z) : Z * Z * Z :=
  let z := day + 719468 in
  let era := z / 146097 in
  let doe := z - era * 146097 in
  let yoe := (doe - doe / 1460 + doe / 36524 - doe / 146096) / 365 in
  let doy := doe - (365 * yoe + yoe / 4 - yoe / 100) in
  let mp := (5 * doy + 2) / 153 in
  let d := doy - (153 * mp + 2) / 5 + 1 in
  let m := if mp <? 10 then mp + 3 else mp - 9 in
  let y := yoe + era * 400 + (if m <=? 2 then 1 else 0) in
  (y, m, d).

(** [d.toISOString()]: [YYYY-MM-DDTHH:mm:ss.sssZ], with a signed six-digit
    year outside 0..9999. *)
Definition toISOString (d : Date) : string :=
  let t := time_value d in
  let '(y, m, dd) := civil_from_days (t / 86400000) in
  let ms := t mod 86400000 in
  let year :=
    if ((0 <=? y) && (y <=? 9999))%bool then pad 4 y
    else (if y <? 0 then "-" else "+") +:+ pad 6 (Z.abs y) in
  year +:+ "-" +:+ pad 2 m +:+ "-" +:+ pad 2 dd +:+ "T"
    +:+ pad 2 (ms / 3600000) +:+ ":" +:+ pad 2 (ms / 60000 mod 60) +:+ ":"
    +:+ pad 2 (ms / 1000 mod 60) +:+ "." +:+ pad 3 (ms mod 1000) +:+ "Z".

(** [throw new Error(msg)], and what a rejected promise carries. *)
Inductive Error := mkError (message : string).

(** The outcome of evaluating a statement or awaiting a promise. *)
Inductive result (A : Type) :=
| Ok (a : A)
| Throw (e : Error).
Arguments Ok {A} a.
Arguments Throw {A} e.

End Js.

Import Js.

(** ** Connection configuration (imap.ts lines 12-47, smtp.ts lines 5-37) *)

Module Config.

(** [ImapFlowOptions], the fields [getImapConfig] sets. *)
Record ImapFlowOptions := {
  host : string;
  port : option Z;
  secure : bool;
  logger : bool;
  tls_rejectUnauthorized : bool;
  auth : option (string * string)
}.

(** [SMTPTransport.Options], the fields [getSmtpConfig] sets. *)
Record SmtpOptions := {
  smtp_host : string;
  smtp_port : option Z;
  smtp_secure : bool;
  smtp_requireTLS : bool;
  smtp_tls_rejectUnauthorized : bool;
  smtp_auth : option (string * string)
}.

(** [config.secure = b] and [config.auth = a] *)
Definition set_secure (b : bool) (c : ImapFlowOptions) : ImapFlowOptions :=
  {| host := c.(host); port := c.(port); secure := b; logger := c.(logger);
     tls_rejectUnauthorized := c.(tls_rejectUnauthorized); auth := c.(auth) |}.

Definition set_auth (a : string * string) (c : ImapFlowOptions) : ImapFlowOptions :=
  {| host := c.(host); port := c.(port); secure := c.(secure);
     logger := c.(logger);
     tls_rejectUnauthorized := c.(tls_rejectUnauthorized); auth := Some a |}.

Definition set_smtp_auth (a : string * string) (c : SmtpOptions) : SmtpOptions :=
  {| smtp_host := c.(smtp_host); smtp_port := c.(smtp_port);
     smtp_secure := c.(smtp_secure); smtp_requireTLS := c.(smtp_requireTLS);
     smtp_tls_rejectUnauthorized := c.(smtp_tls_rejectUnauthorized);
     smtp_auth := Some a |}.

Section WithEnv.
(** [process.env] *)
Variable env : gmap string string.

Definition sslVerify : bool :=
  negb (bool_decide (env !! "SSL_VERIFY" = Some "false")).

Definition username : string :=
  nullish_or (nullish (env !! "EMAIL_USERNAME") (env !! "EMAIL_ADDRESS")) "".

Definition password : string := nullish_or (env !! "EMAIL_PASSWORD") "".

Definition imapSecurity : string := nullish_or (env !! "IMAP_SECURITY") "ssl".

Definition imapDefaultPort : Z :=
  if String.eqb imapSecurity "ssl" then 993 else 143.

Definition getImapConfig : result ImapFlowOptions :=
  let host_env := env !! "IMAP_HOST" in
  if negb (truthy_opt host_env) then Throw (mkError "IMAP_HOST is required")
  else
    let security := imapSecurity in
    let defaultPort := imapDefaultPort in
    let port := parseInt (nullish_or (env !! "IMAP_PORT") (String_ defaultPort)) in
    let config :=
      {| host := nullish_or host_env "";
         port := port;
         secure := String.eqb security "ssl";
         logger := false;
         tls_rejectUnauthorized := sslVerify;
         auth := None |} in
    let config :=
      if String.eqb security "starttls" then set_secure false config
      else config in
    let config :=
      if (truthy password || negb (String.eqb security "none"))%bool
      then set_auth (username, password) config
      else config in
    Ok config.

Definition smtpSecurity : string := nullish_or (env !! "SMTP_SECURITY") "ssl".

Definition smtpDefaultPort : Z :=
  if String.eqb smtpSecurity "ssl" then 465
  else if String.eqb smtpSecurity "starttls" then 587 else 25.

Definition getSmtpConfig : result SmtpOptions :=
  let host_env := env !! "SMTP_HOST" in
  if negb (truthy_opt host_env) then Throw (mkError "SMTP_HOST is required")
  else
    let security := smtpSecurity in
    let defaultPort := smtpDefaultPort in
    let port := parseInt (nullish_or (env !! "SMTP_PORT") (String_ defaultPort)) in
    let config :=
      {| smtp_host := nullish_or host_env "";
         smtp_port := port;
         smtp_secure := String.eqb security "ssl";
         smtp_requireTLS := String.eqb security "starttls";
         smtp_tls_rejectUnauthorized := sslVerify;
         smtp_auth := None |} in
    let config :=
      if (truthy password || negb (String.eqb security "none"))%bool
      then set_smtp_auth (username, password) config
      else config in
    Ok config.
End WithEnv.

End Config.

(** ** Startup validation (index.ts lines 7-35) *)

Module Startup.

(** The checks the server runs before it registers any tool: the message it
    prints before [process.exit(1)], or [None] when startup goes on. *)
Definition validate (env : gmap string string) : option string :=
  let emailAddress := env !! "EMAIL_ADDRESS" in
  let imapHost := env !! "IMAP_HOST" in
  let smtpHost := env !! "SMTP_HOST" in
  let imapSecurity := nullish_or (env !! "IMAP_SECURITY") "ssl" in
  let smtpSecurity := nullish_or (env !! "SMTP_SECURITY") "ssl" in
  let emailPassword := env !! "EMAIL_PASSWORD" in
  if negb (truthy_opt emailAddress) then Some "EMAIL_ADDRESS is required"
  else if negb (truthy_opt imapHost) then Some "IMAP_HOST is required"
  else if negb (truthy_opt smtpHost) then Some "SMTP_HOST is required"
  else if (negb (truthy_opt emailPassword) && negb (String.eqb imapSecurity "none"))%bool
  then Some "EMAIL_PASSWORD is required when IMAP_SECURITY is not 'none'"
  else if (negb (truthy_opt emailPassword) && negb (String.eqb smtpSecurity "none"))%bool
  then Some "EMAIL_PASSWORD is required when SMTP_SECURITY is not 'none'"
  else None.

(** The ports the server announces on startup (index.ts lines 37-38). *)
Definition imapPort (env : gmap string string) : string :=
  let imapSecurity := nullish_or (env !! "IMAP_SECURITY") "ssl" in
  nullish_or (env !! "IMAP_PORT") (if String.eqb imapSecurity "ssl" then "993" else "143").

Definition smtpPort (env : gmap string string) : string :=
  let smtpSecurity := nullish_or (env !! "SMTP_SECURITY") "ssl" in
  nullish_or (env !! "SMTP_PORT")
    (if String.eqb smtpSecurity "ssl" then "465"
     else if String.eqb smtpSecurity "starttls" then "587" else "25").

End Startup.

(** ** The call log and the monad of an operation *)

Module Session.

(** [SearchObject], the fields [searchEmails] fills in. *)
Record SearchObject := {
  q_from : option string;
  q_to : option string;
  q_subject : option string;
  q_since : option string;
  q_before : option string;
  q_body : option string;
  q_seen : option bool
}.

(** One call of an ImapFlow method, with the arguments the sources pass. *)
Inductive Call :=
| Connect
| ListCall
| MailboxOpen (path : string) (readOnly : bool)
| FetchAll (range : string) (byUid : bool)
| FetchOne (range : string)
| Download (range : string) (part : option string)
| Search (query : SearchObject)
| MessageMove (range destination : string)
| MessageDelete (range : string)
| Logout.

(** The calls that fetch message data. *)
Definition is_fetch (c : Call) : bool :=
  match c with
  | FetchAll _ _ | FetchOne _ | Download _ _ => true
  | _ => false
  end.

(** An asynchronous computation: it extends the log of the calls made so
    far and either returns or throws. *)
Definition M (A : Type) : Type := list Call -> result A * list Call.

Definition ret {A} (a : A) : M A := fun log => (Ok a, log).

Definition throw {A} (e : Error) : M A := fun log => (Throw e, log).

Definition bind {A B} (m : M A) (k : A -> M B) : M B :=
  fun log =>
    match m log with
    | (Ok a, log') => k a log'
    | (Throw e, log') => (Throw e, log')
    end.

(** [await client.method(args)]: the call is logged and the client's
    answer is the outcome. *)
Definition await {A} (c : Call) (answer : result A) : M A :=
  fun log => (answer, log ++ [c]).

(** [promise.catch(() => {})]: a rejection is replaced by [undefined]. *)
Definition catch_ignore {A} (m : M A) : M unit :=
  fun log => (Ok tt, snd (m log)).

(** [try { body } finally { cleanup }]: the cleanup always runs; the
    outcome is the body's, unless the cleanup itself throws. *)
Definition try_finally {A} (body : M A) (cleanup : M unit) : M A :=
  fun log =>
    let (r, log1) := body log in
    match cleanup log1 with
    | (Ok _, log2) => (r, log2)
    | (Throw e, log2) => (Throw e, log2)
    end.

(** A synchronous result lifted into the computation. *)
Definition lift {A} (r : result A) : M A := fun log => (r, log).

(** Running an operation from an empty log. *)
Definition run {A} (m : M A) : result A * list Call := m [].

Definition outcome {A} (m : M A) : result A := fst (run m).
Definition calls {A} (m : M A) : list Call := snd (run m).

End Session.

Import Session.

Declare Scope js_scope.
Delimit Scope js_scope with js.
Notation "x <- m ;; k" := (bind m (fun x => k))
  (at level 100, m at next level, right associativity) : js_scope.
Local Open Scope js_scope.

(** ** The mailbox-session client (imap.ts) *)

Module Imap.
Import Config.

(** *** imapflow's data *)

Record MessageAddressObject := {
  addr_name : option string;
  addr_address : option string
}.

(** [envelope.date]: a [Date] when the header parsed, the raw header
    otherwise (which is why the sources call [toISOString?.()]). *)
Inductive EnvelopeDate :=
| DateObject (d : Date)
| DateRaw (s : string).

Record MessageEnvelopeObject := {
  env_date : option EnvelopeDate;
  env_subject : option string;
  env_from : option (list MessageAddressObject);
  env_to : option (list MessageAddressObject);
  env_cc : option (list MessageAddressObject)
}.

#[local] Unset Elimination Schemes.
Inductive MessageStructureObject := mkNode {
  node_type : string;
  node_part : option string;
  node_size : option Z;
  node_disposition : option string;
  node_dispositionParameters : option (gmap string string);
  node_parameters : option (gmap string string);
  node_childNodes : option (list MessageStructureObject)
}.
#[local] Set Elimination Schemes.

Record FetchMessageObject := {
  msg_uid : Z;
  msg_envelope : option MessageEnvelopeObject;
  msg_flags : option (list string);
  msg_bodyStructure : option MessageStructureObject
}.

Record ListResponse := {
  lr_name : string;
  lr_path : string;
  lr_delimiter : string;
  lr_flags : list string;
  lr_specialUse : option string
}.

Record MailboxObject := { mbox_exists : Z }.

Record CopyResponseObject := { copy_uidMap : option (gmap Z Z) }.

(** What a client answers to each call. *)
Record ImapFlow := {
  connect_ : result unit;
  list_ : result (list ListResponse);
  mailboxOpen_ : string -> bool -> result MailboxObject;
  fetchAll_ : string -> bool -> result (list FetchMessageObject);
  fetchOne_ : string -> result (option FetchMessageObject);
  download_ : string -> option string -> result (list string);
  search_ : SearchObject -> result (option (list Z));
  messageMove_ : string -> string -> result (option CopyResponseObject);
  messageDelete_ : string -> result bool;
  logout_ : result unit
}.

(** *** The records imap.ts declares *)

Record MailboxInfo := {
  mi_name : string;
  mi_path : string;
  mi_delimiter : string;
  mi_flags : list string;
  mi_specialUse : option string
}.

Record EmailSummary := {
  sum_uid : Z;
  sum_date : option string;
  sum_from : option (list string);
  sum_to : option (list string);
  sum_subject : option string;
  sum_flags : list string
}.

Record ListEmailsResult := {
  le_total : Z;
  le_page : Z;
  le_pageSize : Z;
  le_emails : list EmailSummary
}.

Record AttachmentInfo := {
  att_filename : option string;
  att_size : option Z;
  att_contentType : string
}.

Record FetchEmailResult := {
  fe_uid : Z;
  fe_date : option string;
  fe_from : option (list string);
  fe_to : option (list string);
  fe_cc : option (list string);
  fe_subject : option string;
  fe_flags : list string;
  fe_textBody : option string;
  fe_htmlBody : option string;
  fe_attachments : list AttachmentInfo
}.

Record SearchCriteria := {
  sc_from : option string;
  sc_to : option string;
  sc_subject : option string;
  sc_since : option string;
  sc_before : option string;
  sc_body : option string;
  sc_seen : option bool
}.

Record MoveEmailResult := {
  mv_uid : Z;
  mv_from : string;
  mv_to : string;
  mv_newUid : option Z
}.

Record DeleteEmailResult := {
  del_uid : Z;
  del_mailbox : string;
  del_deleted : bool
}.

(** *** Result formatting (imap.ts lines 53-66 and 102-111) *)

(** [formatAddress]: ["name <address>"] when the name is truthy, the bare
    address otherwise. *)
Definition formatAddress (addr : option MessageAddressObject) : option string :=
  match addr with
  | None => None
  | Some addr =>
      if truthy_opt addr.(addr_name)
      then Some (template addr.(addr_name) +:+ " <" +:+ template addr.(addr_address) +:+ ">")
      else addr.(addr_address)
  end.

(** [formatAddresses]: [undefined] for a missing or empty list, otherwise
    [addrs.map(formatAddress).filter(Boolean)]. *)
Definition formatAddresses (addrs : option (list MessageAddressObject))
  : option (list string) :=
  match addrs with
  | None | Some [] => None
  | Some addrs =>
      Some (omap (fun a => match formatAddress (Some a) with
                           | Some s => if truthy s then Some s else None
                           | None => None
                           end) addrs)
  end.

(** [envelope?.date?.toISOString?.() ?? String(envelope?.date)]: the left
    operand is defined exactly when the date is a [Date]; a raw header has no
    [toISOString] and a missing date is [undefined], and then the right
    operand is [String] of that value. *)
Definition formatDate (envelope : option MessageEnvelopeObject) : option string :=
  match envelope ≫= env_date with
  | Some (DateObject d) => Some (toISOString d)
  | Some (DateRaw raw) => Some raw
  | None => Some "undefined"
  end.

(** [msg.flags ? Array.from(msg.flags) : []] *)
Definition formatFlags (flags : option (list string)) : list string :=
  match flags with
  | Some fl => fl
  | None => []
  end.

Definition messageToSummary (msg : FetchMessageObject) : EmailSummary :=
  {| sum_uid := msg.(msg_uid);
     sum_date := formatDate msg.(msg_envelope);
     sum_from := formatAddresses (msg.(msg_envelope) ≫= env_from);
     sum_to := formatAddresses (msg.(msg_envelope) ≫= env_to);
     sum_subject := msg.(msg_envelope) ≫= env_subject;
     sum_flags := formatFlags msg.(msg_flags) |}.

(** *** The body-structure walker (imap.ts lines 169-221) *)

(** [node.dispositionParameters?.["filename"] ?? node.parameters?.["name"]] *)
Definition node_filename (node : MessageStructureObject) : option string :=
  nullish (node.(node_dispositionParameters) ≫= (.!! "filename"))
          (node.(node_parameters) ≫= (.!! "name")).

(** [node.disposition === d] *)
Definition disposition_is (node : MessageStructureObject) (d : string) : bool :=
  bool_decide (node.(node_disposition) = Some d).

(** The entry pushed for a node. *)
Definition toAttachmentInfo (node : MessageStructureObject) : AttachmentInfo :=
  {| att_filename := node_filename node;
     att_size := node.(node_size);
     att_contentType := node.(node_type) |}.

(** The inner [walk] of [collectAttachments]; the array [attachments] it
    pushes to is threaded through. *)
Fixpoint collect_walk (node : MessageStructureObject)
    (attachments : list AttachmentInfo) : list AttachmentInfo :=
  let attachments :=
    if (disposition_is node "attachment" || disposition_is node "inline")%bool
    then
      if (disposition_is node "attachment" || truthy_opt (node_filename node))%bool
      then attachments ++ [toAttachmentInfo node]
      else attachments
    else attachments in
  match node.(node_childNodes) with
  | Some children =>
      fold_left (fun attachments child => collect_walk child attachments)
                children attachments
  | None => attachments
  end.

Definition collectAttachments (structure : option MessageStructureObject)
  : list AttachmentInfo :=
  match structure with
  | None => []
  | Some structure => collect_walk structure []
  end.

(** The inner [walk] of [findPart]. *)
Fixpoint find_walk (type : string) (node : MessageStructureObject) : option string :=
  if (String.eqb node.(node_type) type && truthy_opt node.(node_part))%bool
  then node.(node_part)
  else
    match node.(node_childNodes) with
    | Some children =>
        (fix loop (l : list MessageStructureObject) : option string :=
           match l with
           | [] => None
           | child :: rest =>
               let found := find_walk type child in
               if truthy_opt found then found else loop rest
           end) children
    | None => None
    end.

Definition findPart (structure : option MessageStructureObject) (type : string)
  : option string :=
  match structure with
  | None => None
  | Some structure => find_walk type structure
  end.

(** *** The operations (imap.ts lines 49-51, 76-91, 120-161, 236-421)

    Each exported function is [const client = createClient(); try { ... }
    finally { await client.logout().catch(() => {}) }]; the block of its
    [try] statement is the definition named [..._body].  The default values
    of [mailbox], [page], [pageSize] and [limit] are filled in by the caller. *)

(** [Buffer.concat(chunks).toString("utf-8")], the chunks being the
    decoded text of each piece of the download. *)
Definition concatChunks (chunks : list string) : string := String.concat "" chunks.

(** The comparator [(a, b) => b.uid - a.uid] given to [sort]. *)
Definition byUidDescending (a b : FetchMessageObject) : Z := b.(msg_uid) - a.(msg_uid).

(** The query [searchEmails] builds: a text field is copied when it is
    truthy, [seen] when it is defined. *)
Definition buildQuery (criteria : SearchCriteria) : SearchObject :=
  let keep (v : option string) := if truthy_opt v then v else None in
  {| q_from := keep criteria.(sc_from);
     q_to := keep criteria.(sc_to);
     q_subject := keep criteria.(sc_subject);
     q_since := keep criteria.(sc_since);
     q_before := keep criteria.(sc_before);
     q_body := keep criteria.(sc_body);
     q_seen := criteria.(sc_seen) |}.

Section Operations.
(** [process.env], and the behaviour of a client created with given
    options. *)
Variable env : gmap string string.
Variable imapflow : ImapFlowOptions -> ImapFlow.

(** [new ImapFlow(getImapConfig())] *)
Definition createClient : result ImapFlow :=
  match getImapConfig env with
  | Ok config => Ok (imapflow config)
  | Throw e => Throw e
  end.

(** [await client.logout().catch(() => {})] *)
Definition logout_quietly (client : ImapFlow) : M unit :=
  catch_ignore (await Logout client.(logout_)).

Definition listMailboxes_body (client : ImapFlow) : M (list MailboxInfo) :=
  _ <- await Connect client.(connect_) ;;
  list <- await ListCall client.(list_) ;;
  ret (map (fun m => {| mi_name := m.(lr_name);
                        mi_path := m.(lr_path);
                        mi_delimiter := m.(lr_delimiter);
                        mi_flags := m.(lr_flags);
                        mi_specialUse := m.(lr_specialUse) |}) list).

Definition listMailboxes : M (list MailboxInfo) :=
  client <- lift createClient ;;
  try_finally (listMailboxes_body client) (logout_quietly client).

Definition listEmails_body (client : ImapFlow) (mailbox : string)
    (page pageSize : Z) : M ListEmailsResult :=
  _ <- await Connect client.(connect_) ;;
  mb <- await (MailboxOpen mailbox true) (client.(mailboxOpen_) mailbox true) ;;
  let total := mb.(mbox_exists) in
  if total =? 0
  then ret {| le_total := total; le_page := page; le_pageSize := pageSize;
              le_emails := [] |}
  else
    let end_ := total - (page - 1) * pageSize in
    let start := Z.max 1 (end_ - pageSize + 1) in
    if end_ <? 1
    then ret {| le_total := total; le_page := page; le_pageSize := pageSize;
                le_emails := [] |}
    else
      let range := String_ start +:+ ":" +:+ String_ end_ in
      messages <- await (FetchAll range false) (client.(fetchAll_) range false) ;;
      let messages := sort byUidDescending messages in
      ret {| le_total := total; le_page := page; le_pageSize := pageSize;
             le_emails := map messageToSummary messages |}.

Definition listEmails (mailbox : string) (page pageSize : Z) : M ListEmailsResult :=
  client <- lift createClient ;;
  try_finally (listEmails_body client mailbox page pageSize)
              (logout_quietly client).

(** One [client.download] with the loop that gathers its chunks. *)
Definition downloadText (client : ImapFlow) (uid : Z) (part : option string)
  : M string :=
  chunks <- await (Download (String_ uid) part)
                  (client.(download_) (String_ uid) part) ;;
  ret (concatChunks chunks).

Definition fetchEmail_body (client : ImapFlow) (mailbox : string) (uid : Z)
  : M FetchEmailResult :=
  _ <- await Connect client.(connect_) ;;
  _ <- await (MailboxOpen mailbox true) (client.(mailboxOpen_) mailbox true) ;;
  msg <- await (FetchOne (String_ uid)) (client.(fetchOne_) (String_ uid)) ;;
  match msg with
  | None =>
      throw (mkError ("Message with UID " +:+ String_ uid +:+ " not found"))
  | Some msg =>
      let envelope := msg.(msg_envelope) in
      let attachments := collectAttachments msg.(msg_bodyStructure) in
      let textPart := findPart msg.(msg_bodyStructure) "text/plain" in
      let htmlPart := findPart msg.(msg_bodyStructure) "text/html" in
      textBody <- (if truthy_opt textPart
                   then t <- downloadText client uid textPart ;; ret (Some t)
                   else ret None) ;;
      htmlBody <- (if truthy_opt htmlPart
                   then t <- downloadText client uid htmlPart ;; ret (Some t)
                   else ret None) ;;
      bodies <- (if (negb (truthy_opt textPart) && negb (truthy_opt htmlPart)
                     && negb (bool_decide
                                (is_Some (msg.(msg_bodyStructure) ≫= node_childNodes))))%bool
                 then
                   fullSource <- downloadText client uid None ;;
                   if bool_decide (node_type <$> msg.(msg_bodyStructure) = Some "text/html")
                   then ret (textBody, Some fullSource)
                   else ret (Some fullSource, htmlBody)
                 else ret (textBody, htmlBody)) ;;
      ret {| fe_uid := msg.(msg_uid);
             fe_date := formatDate envelope;
             fe_from := formatAddresses (envelope ≫= env_from);
             fe_to := formatAddresses (envelope ≫= env_to);
             fe_cc := formatAddresses (envelope ≫= env_cc);
             fe_subject := envelope ≫= env_subject;
             fe_flags := formatFlags msg.(msg_flags);
             fe_textBody := fst bodies;
             fe_htmlBody := snd bodies;
             fe_attachments := attachments |}
  end.

Definition fetchEmail (mailbox : string) (uid : Z) : M FetchEmailResult :=
  client <- lift createClient ;;
  try_finally (fetchEmail_body client mailbox uid) (logout_quietly client).

Definition searchEmails_body (client : ImapFlow) (mailbox : string)
    (criteria : SearchCriteria) (limit : Z) : M (list EmailSummary) :=
  _ <- await Connect client.(connect_) ;;
  _ <- await (MailboxOpen mailbox true) (client.(mailboxOpen_) mailbox true) ;;
  let query := buildQuery criteria in
  uids <- await (Search query) (client.(search_) query) ;;
  match uids with
  | None | Some [] => ret []
  | Some uids =>
      let selectedUids := slice_from (- limit) uids in
      let range := join "," (map String_ selectedUids) in
      messages <- await (FetchAll range true) (client.(fetchAll_) range true) ;;
      let messages := sort byUidDescending messages in
      ret (map messageToSummary messages)
  end.

Definition searchEmails (mailbox : string) (criteria : SearchCriteria)
    (limit : Z) : M (list EmailSummary) :=
  client <- lift createClient ;;
  try_finally (searchEmails_body client mailbox criteria limit)
              (logout_quietly client).

Definition moveEmail_body (client : ImapFlow) (mailbox : string) (uid : Z)
    (destination : string) : M MoveEmailResult :=
  _ <- await Connect client.(connect_) ;;
  _ <- await (MailboxOpen mailbox false) (client.(mailboxOpen_) mailbox false) ;;
  result <- await (MessageMove (String_ uid) destination)
                  (client.(messageMove_) (String_ uid) destination) ;;
  match result with
  | None =>
      throw (mkError ("Failed to move message UID " +:+ String_ uid
                        +:+ " to " +:+ destination))
  | Some result =>
      let newUid :=
        match result.(copy_uidMap) with
        | Some uidMap => uidMap !! uid
        | None => None
        end in
      ret {| mv_uid := uid; mv_from := mailbox; mv_to := destination;
             mv_newUid := newUid |}
  end.

Definition moveEmail (mailbox : string) (uid : Z) (destination : string)
  : M MoveEmailResult :=
  client <- lift createClient ;;
  try_finally (moveEmail_body client mailbox uid destination)
              (logout_quietly client).

Definition deleteEmail_body (client : ImapFlow) (mailbox : string) (uid : Z)
  : M DeleteEmailResult :=
  _ <- await Connect client.(connect_) ;;
  _ <- await (MailboxOpen mailbox false) (client.(mailboxOpen_) mailbox false) ;;
  result <- await (MessageDelete (String_ uid))
                  (client.(messageDelete_) (String_ uid)) ;;
  ret {| del_uid := uid; del_mailbox := mailbox; del_deleted := result |}.

Definition deleteEmail (mailbox : string) (uid : Z) : M DeleteEmailResult :=
  client <- lift createClient ;;
  try_finally (deleteEmail_body client mailbox uid) (logout_quietly client).

End Operations.

End Imap.

(** ** The relay send client (smtp.ts lines 39-89) *)

Module Smtp.
Import Config.

(** A [string | string[]] of addresses. *)
Inductive Recipients :=
| One (address : string)
| Many (addresses : list string).

(** [Array.isArray(v) ? v.join(", ") : v] *)
Definition joinRecipients (v : Recipients) : string :=
  match v with
  | One address => address
  | Many addresses => join ", " addresses
  end.

(** [if (v)] on a [string | string[] | undefined]: an array is truthy, even
    when it is empty. *)
Definition truthy_recipients (v : option Recipients) : bool :=
  match v with
  | Some (One address) => truthy address
  | Some (Many _) => true
  | None => false
  end.

Record SendEmailOptions := {
  opt_cc : option Recipients;
  opt_bcc : option Recipients;
  opt_replyTo : option string;
  opt_isHtml : option bool
}.

(** The object given to [transporter.sendMail]. *)
Record MailOptions := {
  mail_from : string;
  mail_to : string;
  mail_subject : string;
  mail_html : option string;
  mail_text : option string;
  mail_cc : option string;
  mail_bcc : option string;
  mail_replyTo : option string
}.

(** What [sendMail] resolves to, and what [sendEmail] returns. *)
Record SentMessageInfo := {
  info_messageId : string;
  info_accepted : list string;
  info_rejected : list string
}.

Record SendEmailResult := {
  sent_messageId : string;
  sent_accepted : list string;
  sent_rejected : list string
}.

(** What a transporter answers to [sendMail]; [close] returns nothing. *)
Record Transporter := { sendMail_ : MailOptions -> result SentMessageInfo }.

Inductive TransportCall :=
| SendMail (message : MailOptions)
| Close.

(** The message [sendEmail] composes. *)
Definition composeMessage (from : string) (to : Recipients) (subject body : string)
    (options : SendEmailOptions) : MailOptions :=
  let isHtml := nullish_or options.(opt_isHtml) false in
  {| mail_from := from;
     mail_to := joinRecipients to;
     mail_subject := subject;
     mail_html := if isHtml then Some body else None;
     mail_text := if isHtml then None else Some body;
     mail_cc := if truthy_recipients options.(opt_cc)
                then joinRecipients <$> options.(opt_cc) else None;
     mail_bcc := if truthy_recipients options.(opt_bcc)
                 then joinRecipients <$> options.(opt_bcc) else None;
     mail_replyTo := if truthy_opt options.(opt_replyTo)
                     then options.(opt_replyTo) else None |}.

(** [sendEmail]: its outcome and the calls made on the transporter.  The
    transporter is created and [EMAIL_ADDRESS] checked before the [try]
    statement; [transporter.close()] is its [finally] block. *)
Definition sendEmail (env : gmap string string) (nodemailer : SmtpOptions -> Transporter)
    (to : Recipients) (subject body : string) (options : SendEmailOptions)
  : result SendEmailResult * list TransportCall :=
  match getSmtpConfig env with
  | Throw e => (Throw e, [])
  | Ok config =>
      let transporter := nodemailer config in
      let from := env !! "EMAIL_ADDRESS" in
      if negb (truthy_opt from)
      then (Throw (mkError "EMAIL_ADDRESS is required"), [])
      else
        let message := composeMessage (nullish_or from "") to subject body options in
        let tried :=
          (match transporter.(sendMail_) message with
           | Ok info => Ok {| sent_messageId := info.(info_messageId);
                              sent_accepted := info.(info_accepted);
                              sent_rejected := info.(info_rejected) |}
           | Throw e => Throw e
           end, [SendMail message]) in
        (fst tried, snd tried ++ [Close])
  end.

End Smtp.

(** ** Specification-side definitions *)

Module Spec.
Import Config Imap.

(** The three security modes of the configuration (type [SecurityMode]). *)
Inductive SecurityMode := ssl | starttls | none.

#[global] Instance SecurityMode_eq_dec : EqDecision SecurityMode.
Proof. solve_decision. Defined.

(** The value of [IMAP_SECURITY] / [SMTP_SECURITY] that selects a mode. *)
Definition mode_name (m : SecurityMode) : string :=
  match m with
  | ssl => "ssl"
  | starttls => "starttls"
  | none => "none"
  end.

(** The mode in force for a security variable that may be unset. *)
Definition resolved_mode (m : option SecurityMode) : SecurityMode :=
  match m with
  | Some m => m
  | None => ssl
  end.

(** The default-port table of the specification. *)
Definition imap_default_port (m : SecurityMode) : Z :=
  match m with
  | ssl => 993
  | starttls | none => 143
  end.

Definition smtp_default_port (m : SecurityMode) : Z :=
  match m with
  | ssl => 465
  | starttls => 587
  | none => 25
  end.

(** The pagination engine as the specification words it: the window of
    sequence numbers of page [P], for [N] messages and pages of [S], newest
    first; [None] when the page lies beyond the data. *)
Definition pageWindow (N P S : Z) : option (Z * Z) :=
  let end_ := N - (P - 1) * S in
  let start := Z.max 1 (end_ - S + 1) in
  if end_ <? 1 then None else Some (start, end_).

(** The page [listEmails] returns when it fetches nothing. *)
Definition emptyPage (total page pageSize : Z) : ListEmailsResult :=
  {| le_total := total; le_page := page; le_pageSize := pageSize; le_emails := [] |}.

(** The sequence range [fetchAll] is given for a window. *)
Definition sequenceRange (w : Z * Z) : string :=
  String_ (fst w) +:+ ":" +:+ String_ (snd w).

(** Newest first: UIDs never increase along the list. *)
Definition uidDescending (uids : list Z) : Prop := StronglySorted Z.ge uids.

(** Document order of a body structure: a node, then the nodes of each of
    its children in turn (depth first, pre-order). *)
Fixpoint preorder (node : MessageStructureObject) : list MessageStructureObject :=
  node :: match node.(node_childNodes) with
          | Some children => flat_map preorder children
          | None => []
          end.

(** A value that is present and not the empty string. *)
Definition nonEmpty (v : option string) : bool :=
  match v with
  | Some s => negb (String.eqb s "")
  | None => false
  end.

(** A node that findFirstPartOfType may answer with: its content type is
    the target and it carries a part identifier. *)
Definition isCandidate (type : string) (node : MessageStructureObject) : bool :=
  (bool_decide (node.(node_type) = type) && nonEmpty node.(node_part))%bool.

(** findFirstPartOfType as the specification words it: the part identifier
    of the first candidate in document order. *)
Definition firstPartOfType (tree : MessageStructureObject) (type : string)
  : option string :=
  List.find (isCandidate type) (preorder tree) ≫= node_part.

(** The two places a filename may come from. *)
Definition dispositionFilename (node : MessageStructureObject) : option string :=
  node.(node_dispositionParameters) ≫= (.!! "filename").

Definition contentTypeName (node : MessageStructureObject) : option string :=
  node.(node_parameters) ≫= (.!! "name").

Definition hasDisposition (d : string) (node : MessageStructureObject) : bool :=
  bool_decide (node.(node_disposition) = Some d).

(** The qualification rule as the specification states it: an attachment,
    or an inline part with a filename in either place. *)
Definition qualifiesAsStated (node : MessageStructureObject) : bool :=
  (hasDisposition "attachment" node
   || (hasDisposition "inline" node
       && (nonEmpty (dispositionFilename node) || nonEmpty (contentTypeName node))))%bool.

(** The rule the code follows: the filename of a node is the disposition
    parameter [filename] when that parameter is present, and the content-type
    parameter [name] only when it is not; an inline part qualifies when that
    filename is not empty. *)
Definition qualifies (node : MessageStructureObject) : bool :=
  (hasDisposition "attachment" node
   || (hasDisposition "inline" node
       && match dispositionFilename node with
          | Some f => nonEmpty (Some f)
          | None => nonEmpty (contentTypeName node)
          end))%bool.

(** What the date field must read for an envelope: the ISO-8601 rendering
    of its [Date], the raw header when the date did not parse, and the string
    "undefined" when the envelope or its date is missing. *)
Definition rendersDate (envelope : option MessageEnvelopeObject) (s : string) : Prop :=
  match envelope ≫= env_date with
  | Some (DateObject d) => s = toISOString d
  | Some (DateRaw raw) => s = raw
  | None => s = "undefined"
  end.

(** The last [n] elements of a list (all of it when it is shorter). *)
Definition lastN {A} (n : nat) (l : list A) : list A := drop (length l - n) l.

(** The UID set [fetchAll] is given for a list of UIDs. *)
Definition uidSet (uids : list Z) : string := join "," (map String_ uids).

(** The six operations of the mailbox-session client, each with its
    arguments, indexed by the type of what it returns. *)
Inductive Operation : Type -> Type :=
| ListMailboxes : Operation (list MailboxInfo)
| ListEmails (mailbox : string) (page pageSize : Z) : Operation ListEmailsResult
| FetchEmail (mailbox : string) (uid : Z) : Operation FetchEmailResult
| SearchEmails (mailbox : string) (criteria : SearchCriteria) (limit : Z)
  : Operation (list EmailSummary)
| MoveEmail (mailbox : string) (uid : Z) (destination : string)
  : Operation MoveEmailResult
| DeleteEmail (mailbox : string) (uid : Z) : Operation DeleteEmailResult.

(** Calling the exported function. *)
Definition perform (env : gmap string string) (imapflow : ImapFlowOptions -> ImapFlow)
    {A} (op : Operation A) : M A :=
  match op with
  | ListMailboxes => listMailboxes env imapflow
  | ListEmails mailbox page pageSize => listEmails env imapflow mailbox page pageSize
  | FetchEmail mailbox uid => fetchEmail env imapflow mailbox uid
  | SearchEmails mailbox criteria limit => searchEmails env imapflow mailbox criteria limit
  | MoveEmail mailbox uid destination => moveEmail env imapflow mailbox uid destination
  | DeleteEmail mailbox uid => deleteEmail env imapflow mailbox uid
  end.

(** The block of its [try] statement alone: the primary operation, with no
    cleanup. *)
Definition primary (client : ImapFlow) {A} (op : Operation A) : M A :=
  match op with
  | ListMailboxes => listMailboxes_body client
  | ListEmails mailbox page pageSize => listEmails_body client mailbox page pageSize
  | FetchEmail mailbox uid => fetchEmail_body client mailbox uid
  | SearchEmails mailbox criteria limit => searchEmails_body client mailbox criteria limit
  | MoveEmail mailbox uid destination => moveEmail_body client mailbox uid destination
  | DeleteEmail mailbox uid => deleteEmail_body client mailbox uid
  end.

(** The same client, except for what its [logout] answers. *)
Definition with_logout (answer : result unit) (client : ImapFlow) : ImapFlow :=
  {| connect_ := client.(connect_);
     list_ := client.(list_);
     mailboxOpen_ := client.(mailboxOpen_);
     fetchAll_ := client.(fetchAll_);
     fetchOne_ := client.(fetchOne_);
     download_ := client.(download_);
     search_ := client.(search_);
     messageMove_ := client.(messageMove_);
     messageDelete_ := client.(messageDelete_);
     logout_ := answer |}.

End Spec.

(** ** Sample inputs *)

Module Sample.
Import Config Imap.

Definition env_defaults : gmap string string :=
  {[ "IMAP_HOST" := "imap.example.org"; "SMTP_HOST" := "smtp.example.org";
     "EMAIL_ADDRESS" := "jane@example.org"; "EMAIL_PASSWORD" := "secret" ]}.

Definition env_explicit : gmap string string :=
  <[ "IMAP_PORT" := "1993" ]> (<[ "SMTP_PORT" := "2525" ]>
    (<[ "IMAP_SECURITY" := "starttls" ]> env_defaults)).

(** A message that carries nothing but its UID. *)
Definition bare (uid : Z) : FetchMessageObject :=
  {| msg_uid := uid; msg_envelope := None; msg_flags := None;
     msg_bodyStructure := None |}.

(** A mailbox of 95 messages whose UIDs are their sequence numbers; the
    server delivers a fetched window oldest first. *)
Definition client_95 : ImapFlow :=
  {| connect_ := Ok tt;
     list_ := Ok [];
     mailboxOpen_ := fun _ _ => Ok {| mbox_exists := 95 |};
     fetchAll_ := fun range _ =>
       if String.eqb range "76:95" then Ok (map bare (seqZ 76 20))
       else if String.eqb range "1:15" then Ok (map bare (seqZ 1 15))
       else Throw (mkError "Invalid messageset");
     fetchOne_ := fun _ => Ok None;
     download_ := fun _ _ => Throw (mkError "Command failed");
     search_ := fun _ => Ok None;
     messageMove_ := fun _ _ => Ok None;
     messageDelete_ := fun _ => Ok false;
     logout_ := Ok tt |}.

(** An empty mailbox. *)
Definition client_empty : ImapFlow :=
  {| connect_ := Ok tt;
     list_ := Ok [];
     mailboxOpen_ := fun _ _ => Ok {| mbox_exists := 0 |};
     fetchAll_ := fun _ _ => Throw (mkError "Invalid messageset");
     fetchOne_ := fun _ => Ok None;
     download_ := fun _ _ => Throw (mkError "Command failed");
     search_ := fun _ => Ok None;
     messageMove_ := fun _ _ => Ok None;
     messageDelete_ := fun _ => Ok false;
     logout_ := Throw (mkError "Connection not available") |}.

(** Body structures. *)
Definition leaf (type part : string) : MessageStructureObject :=
  {| node_type := type; node_part := Some part; node_size := None;
     node_disposition := None; node_dispositionParameters := None;
     node_parameters := None; node_childNodes := None |}.

Definition multipart (type : string) (part : option string)
    (children : list MessageStructureObject) : MessageStructureObject :=
  {| node_type := type; node_part := part; node_size := None;
     node_disposition := None; node_dispositionParameters := None;
     node_parameters := None; node_childNodes := Some children |}.

Definition disposed (type part disposition : string) (size : Z)
    (dispositionParameters parameters : option (gmap string string))
    (children : option (list MessageStructureObject)) : MessageStructureObject :=
  {| node_type := type; node_part := Some part; node_size := Some size;
     node_disposition := Some disposition;
     node_dispositionParameters := dispositionParameters;
     node_parameters := parameters; node_childNodes := children |}.

(** multipart/alternative with a plain and an HTML body. *)
Definition alternative : MessageStructureObject :=
  multipart "multipart/alternative" None
    [leaf "text/plain" "1"; leaf "text/html" "2"].

(** An inline image that names itself only in its content type, next to an
    empty [filename] in its disposition. *)
Definition inline_named_by_type : MessageStructureObject :=
  disposed "image/png" "2" "inline" 2048
    (Some {[ "filename" := "" ]}) (Some {[ "name" := "logo.png" ]}) None.

(** A message with bodies, inline images with and without a filename, an
    attachment without a filename, and a forwarded message that is itself an
    attachment and holds one. *)
Definition mixed : MessageStructureObject :=
  multipart "multipart/mixed" None
    [ multipart "multipart/related" (Some "1")
        [ leaf "text/html" "1.1";
          disposed "image/png" "1.2" "inline" 512 None None None;
          disposed "image/png" "1.3" "inline" 1024
            (Some {[ "filename" := "logo.png" ]}) None None;
          disposed "image/gif" "1.4" "inline" 99
            None (Some {[ "name" := "dot.gif" ]}) None ];
      disposed "application/pdf" "2" "attachment" 70000 None None None;
      disposed "message/rfc822" "3" "attachment" 9000
        (Some {[ "filename" := "fwd.eml" ]}) None
        (Some [ leaf "text/plain" "3.1";
                disposed "text/csv" "3.2" "attachment" 300
                  (Some {[ "filename" := "data.csv" ]}) None None ]) ].

(** A single-part HTML message: no part identifier, no children. *)
Definition html_only : FetchMessageObject :=
  {| msg_uid := 42;
     msg_envelope :=
       Some {| env_date := Some (DateObject {| time_value := 1705314600000 |});
               env_subject := Some "Hello";
               env_from := Some [ {| addr_name := Some "Jane";
                                     addr_address := Some "jane@x.com" |} ];
               env_to := Some [ {| addr_name := None;
                                   addr_address := Some "joe@x.com" |} ];
               env_cc := None |};
     msg_flags := Some ["\Seen"];
     msg_bodyStructure :=
       Some {| node_type := "text/html"; node_part := None; node_size := Some 12;
               node_disposition := None; node_dispositionParameters := None;
               node_parameters := None; node_childNodes := None |} |}.

Definition client_html_only : ImapFlow :=
  {| connect_ := Ok tt;
     list_ := Ok [];
     mailboxOpen_ := fun _ _ => Ok {| mbox_exists := 1 |};
     fetchAll_ := fun _ _ => Ok [];
     fetchOne_ := fun range => if String.eqb range "42" then Ok (Some html_only) else Ok None;
     download_ := fun _ part =>
       match part with
       | None => Ok ["<p>Hello"; "</p>"]
       | Some _ => Throw (mkError "Command failed")
       end;
     search_ := fun _ => Ok None;
     messageMove_ := fun _ _ => Ok None;
     messageDelete_ := fun _ => Ok false;
     logout_ := Ok tt |}.

(** A search with 120 matches, UIDs 101 to 220; the server delivers the
    messages it is asked for oldest first. *)
Definition no_criteria : SearchCriteria :=
  {| sc_from := None; sc_to := None; sc_subject := None; sc_since := None;
     sc_before := None; sc_body := None; sc_seen := None |}.

Definition client_search : ImapFlow :=
  {| connect_ := Ok tt;
     list_ := Ok [];
     mailboxOpen_ := fun _ _ => Ok {| mbox_exists := 500 |};
     fetchAll_ := fun range _ =>
       if String.eqb range (Spec.uidSet (seqZ 171 50)) then Ok (map bare (seqZ 171 50))
       else Throw (mkError "Invalid messageset");
     fetchOne_ := fun _ => Ok None;
     download_ := fun _ _ => Throw (mkError "Command failed");
     search_ := fun _ => Ok (Some (seqZ 101 120));
     messageMove_ := fun _ _ => Ok None;
     messageDelete_ := fun _ => Ok false;
     logout_ := Ok tt |}.

(** A server that is down: every call is rejected, [logout] included. *)
Definition refused : Error := mkError "connect ECONNREFUSED".

Definition client_down : ImapFlow :=
  {| connect_ := Throw refused;
     list_ := Throw refused;
     mailboxOpen_ := fun _ _ => Throw refused;
     fetchAll_ := fun _ _ => Throw refused;
     fetchOne_ := fun _ => Throw refused;
     download_ := fun _ _ => Throw refused;
     search_ := fun _ => Throw refused;
     messageMove_ := fun _ _ => Throw refused;
     messageDelete_ := fun _ => Throw refused;
     logout_ := Throw (mkError "Connection not available") |}.

End Sample.

(** ** Further sample inputs *)

Module Examples.
Import Config Imap Smtp.

(** No encryption and no credentials, with explicit ports. *)
Definition env_plain : gmap string string :=
  {[ "IMAP_HOST" := "localhost"; "SMTP_HOST" := "localhost";
     "EMAIL_ADDRESS" := "dev@localhost";
     "IMAP_SECURITY" := "none"; "SMTP_SECURITY" := "none";
     "IMAP_PORT" := "1143"; "SMTP_PORT" := "1025"; "SSL_VERIFY" := "false" ]}.

(** A server with two mailboxes. *)
Definition inbox : ListResponse :=
  {| lr_name := "INBOX"; lr_path := "INBOX"; lr_delimiter := "/";
     lr_flags := ["\HasNoChildren"]; lr_specialUse := Some "\Inbox" |}.

Definition archive : ListResponse :=
  {| lr_name := "2024"; lr_path := "Archive/2024"; lr_delimiter := "/";
     lr_flags := []; lr_specialUse := None |}.

(** A message with a plain and an HTML body (parts 1 and 2), and one whose
    only part is a PDF attachment inside a multipart. *)
Definition two_bodies : FetchMessageObject :=
  {| msg_uid := 42; msg_envelope := None; msg_flags := None;
     msg_bodyStructure := Some Sample.alternative |}.

Definition pdf_only : FetchMessageObject :=
  {| msg_uid := 43; msg_envelope := None; msg_flags := None;
     msg_bodyStructure :=
       Some (Sample.multipart "multipart/mixed" None
               [Sample.disposed "application/pdf" "1" "attachment" 70000
                  (Some {[ "filename" := "report.pdf" ]}) None None]) |}.

(** A server holding those two messages, which moves UID 42 to UID 7 of the
    destination, reports no UID map for any other move of an existing
    message, and confirms every delete. *)
Definition client_full : ImapFlow :=
  {| connect_ := Ok tt;
     list_ := Ok [inbox; archive];
     mailboxOpen_ := fun _ _ => Ok {| mbox_exists := 2 |};
     fetchAll_ := fun _ _ => Ok [];
     fetchOne_ := fun range =>
       if String.eqb range "42" then Ok (Some two_bodies)
       else if String.eqb range "43" then Ok (Some pdf_only)
       else Ok None;
     download_ := fun _ part =>
       match part with
       | Some "1" => Ok ["Hel"; "lo"]
       | Some "2" => Ok ["<p>Hello</p>"]
       | _ => Throw (mkError "Command failed")
       end;
     search_ := fun _ => Ok (Some []);
     messageMove_ := fun range _ =>
       if String.eqb range "42" then Ok (Some {| copy_uidMap := Some {[ 42 := 7 ]} |})
       else if String.eqb range "43" then Ok (Some {| copy_uidMap := None |})
       else Ok None;
     messageDelete_ := fun _ => Ok true;
     logout_ := Ok tt |}.

(** The same server with downloads out of order. *)
Definition client_no_download : ImapFlow :=
  {| connect_ := Ok tt;
     list_ := Ok [inbox; archive];
     mailboxOpen_ := fun _ _ => Ok {| mbox_exists := 2 |};
     fetchAll_ := fun _ _ => Ok [];
     fetchOne_ := fun range =>
       if String.eqb range "42" then Ok (Some two_bodies) else Ok None;
     download_ := fun _ _ => Throw (mkError "Command failed");
     search_ := fun _ => Ok None;
     messageMove_ := fun _ _ => Ok None;
     messageDelete_ := fun _ => Ok false;
     logout_ := Ok tt |}.

(** A server on which no mailbox can be opened, and one on which every
    fetch is rejected. *)
Definition no_such_mailbox : Error := mkError "Mailbox does not exist".

Definition client_no_mailbox : ImapFlow :=
  {| connect_ := Ok tt;
     list_ := Ok [inbox];
     mailboxOpen_ := fun _ _ => Throw no_such_mailbox;
     fetchAll_ := fun _ _ => Ok [];
     fetchOne_ := fun _ => Ok None;
     download_ := fun _ _ => Ok [];
     search_ := fun _ => Ok None;
     messageMove_ := fun _ _ => Ok None;
     messageDelete_ := fun _ => Ok true;
     logout_ := Ok tt |}.

Definition fetch_rejected : Error := mkError "Command failed".

Definition client_fetch_fails : ImapFlow :=
  {| connect_ := Ok tt;
     list_ := Ok [inbox];
     mailboxOpen_ := fun _ _ => Ok {| mbox_exists := 95 |};
     fetchAll_ := fun _ _ => Throw fetch_rejected;
     fetchOne_ := fun _ => Ok None;
     download_ := fun _ _ => Ok [];
     search_ := fun _ => Ok (Some [3; 5; 8]);
     messageMove_ := fun _ _ => Ok None;
     messageDelete_ := fun _ => Ok true;
     logout_ := Ok tt |}.

(** Criteria with empty texts and an explicit "unread". *)
Definition unread_only : SearchCriteria :=
  {| sc_from := Some ""; sc_to := None; sc_subject := Some ""; sc_since := None;
     sc_before := None; sc_body := Some ""; sc_seen := Some false |}.

(** Correspondents: with a name, without one, with a name only, with
    nothing. *)
Definition correspondents : list MessageAddressObject :=
  [ {| addr_name := Some "Jane"; addr_address := Some "jane@x.com" |};
    {| addr_name := None; addr_address := Some "joe@x.com" |};
    {| addr_name := Some "Undisclosed"; addr_address := None |};
    {| addr_name := Some ""; addr_address := None |} ].


Definition relay_rejecting : Transporter :=
  {| sendMail_ := fun _ => Throw (mkError "550 Mailbox unavailable") |}.

Definition plain_options : SendEmailOptions :=
  {| opt_cc := None; opt_bcc := None; opt_replyTo := None; opt_isHtml := None |}.

End Examples.

(** ** How an address is displayed *)

Module Display.
Import Imap Spec.

(** An address that has something to show: a name or an address that is
    not empty. *)
Definition shown (a : MessageAddressObject) : bool :=
  (nonEmpty a.(addr_name) || nonEmpty a.(addr_address))%bool.

(** What is shown for it: the name followed by the address in angle
    brackets (the word "undefined" standing for a missing address), or the
    bare address when there is no name. *)
Definition rendered (a : MessageAddressObject) : string :=
  match a.(addr_name) with
  | Some name =>
      if String.eqb name "" then nullish_or a.(addr_address) ""
      else name +:+ " <" +:+ nullish_or a.(addr_address) "undefined" +:+ ">"
  | None => nullish_or a.(addr_address) ""
  end.

End Display.

(** ** Properties of call logs *)

Module Trace.
Import Imap Spec.

(** The calls that change the mailbox: a move, a delete, and opening a
    mailbox read-write. *)
Definition mutates (c : Call) : bool :=
  match c with
  | MessageMove _ _ | MessageDelete _ | MailboxOpen _ false => true
  | _ => false
  end.

(** The calls that act on the selected mailbox. *)
Definition needsMailbox (c : Call) : bool :=
  match c with
  | FetchAll _ _ | FetchOne _ | Download _ _ | Search _
  | MessageMove _ _ | MessageDelete _ => true
  | _ => false
  end.

(** The operations that only read. *)
Definition readsOnly {A} (op : Operation A) : bool :=
  match op with
  | ListMailboxes | ListEmails _ _ _ | FetchEmail _ _ | SearchEmails _ _ _ => true
  | MoveEmail _ _ _ | DeleteEmail _ _ => false
  end.

(** A call made inside a session: neither its opening nor its end. *)
Definition inSession (c : Call) : Prop := c <> Connect /\ c <> Logout.

(** A computation that only appends to the log, and only calls satisfying
    [Q]. *)
Definition emits (Q : Call -> Prop) {A} (m : M A) : Prop :=
  forall log, exists l, snd (m log) = log ++ l /\ Forall Q l.

End Trace.

(** ** Configuration resolution *)

Section ConfigFacts.
Import Config Spec.
Variable env : gmap string string.

Lemma truthy_opt_Some (h : string) : h <> "" -> truthy_opt (Some h) = true.
Proof.
  intros Hh. unfold truthy_opt, truthy.
  destruct (String.eqb_spec h ""); [contradiction | reflexivity].
Qed.

Lemma getImapConfig_port (h : string) :
  env !! "IMAP_HOST" = Some h -> h <> "" ->
  exists cfg, getImapConfig env = Ok cfg /\
    port cfg = parseInt (nullish_or (env !! "IMAP_PORT") (String_ (imapDefaultPort env))) /\
    secure cfg = (String.eqb (imapSecurity env) "ssl"
                  && negb (String.eqb (imapSecurity env) "starttls"))%bool.
Proof.
  intros Hh Hne. unfold getImapConfig. rewrite Hh, (truthy_opt_Some h Hne). simpl.
  eexists. split; [reflexivity |].
  destruct (String.eqb (imapSecurity env) "starttls") eqn:Es;
    destruct (truthy (password env) || negb (String.eqb (imapSecurity env) "none"))%bool;
    simpl; rewrite ?andb_true_r, ?andb_false_r; split; try reflexivity.
  all: apply String.eqb_eq in Es; rewrite Es; reflexivity.
Qed.

Lemma getSmtpConfig_port (h : string) :
  env !! "SMTP_HOST" = Some h -> h <> "" ->
  exists cfg, getSmtpConfig env = Ok cfg /\
    smtp_port cfg = parseInt (nullish_or (env !! "SMTP_PORT") (String_ (smtpDefaultPort env))) /\
    smtp_secure cfg = String.eqb (smtpSecurity env) "ssl".
Proof.
  intros Hh Hne. unfold getSmtpConfig. rewrite Hh, (truthy_opt_Some h Hne). simpl.
  eexists. split; [reflexivity |].
  destruct (truthy (password env) || negb (String.eqb (smtpSecurity env) "none"))%bool;
    simpl; split; reflexivity.
Qed.

Lemma imapSecurity_mode (m : option SecurityMode) :
  env !! "IMAP_SECURITY" = mode_name <$> m ->
  imapSecurity env = mode_name (resolved_mode m).
Proof. intros H. unfold imapSecurity. rewrite H. destruct m; reflexivity. Qed.

Lemma smtpSecurity_mode (m : option SecurityMode) :
  env !! "SMTP_SECURITY" = mode_name <$> m ->
  smtpSecurity env = mode_name (resolved_mode m).
Proof. intros H. unfold smtpSecurity. rewrite H. destruct m; reflexivity. Qed.

End ConfigFacts.

(** C7. Default ports per security mode.  With the host configured, the
    resolver returns a configuration whose port is: the explicitly supplied
    [IMAP_PORT] / [SMTP_PORT] whenever there is one, whatever the mode; and
    otherwise the entry of the specification's table for the mode in force
    (IMAP: 993 for ssl, 143 for starttls and for none; SMTP: 465 for ssl,
    587 for starttls, 25 for none), where an unset security variable means
    ssl.  [secure] is set for ssl only, so starttls on port 143 is not
    promoted to implicit TLS. *)
Theorem default_port_table (env : gmap string string) :
  (forall h, env !! "IMAP_HOST" = Some h -> h <> "" ->
     exists cfg, Config.getImapConfig env = Ok cfg /\
       (forall p, env !! "IMAP_PORT" = Some p -> Config.port cfg = parseInt p) /\
       (forall m, env !! "IMAP_PORT" = None ->
                  env !! "IMAP_SECURITY" = Spec.mode_name <$> m ->
                  Config.port cfg = Some (Spec.imap_default_port (Spec.resolved_mode m)) /\
                  Config.secure cfg = bool_decide (Spec.resolved_mode m = Spec.ssl)))
  /\
  (forall h, env !! "SMTP_HOST" = Some h -> h <> "" ->
     exists cfg, Config.getSmtpConfig env = Ok cfg /\
       (forall p, env !! "SMTP_PORT" = Some p -> Config.smtp_port cfg = parseInt p) /\
       (forall m, env !! "SMTP_PORT" = None ->
                  env !! "SMTP_SECURITY" = Spec.mode_name <$> m ->
                  Config.smtp_port cfg = Some (Spec.smtp_default_port (Spec.resolved_mode m)) /\
                  Config.smtp_secure cfg = bool_decide (Spec.resolved_mode m = Spec.ssl))).
Proof.
  split; intros h Hh Hne.
  - destruct (getImapConfig_port env h Hh Hne) as (cfg & Hcfg & Hport & Hsec).
    exists cfg. split; [exact Hcfg |]. split.
    + intros p Hp. rewrite Hport, Hp. reflexivity.
    + intros m Hp Hm. rewrite Hport, Hsec, Hp. unfold Config.imapDefaultPort.
      rewrite (imapSecurity_mode env m Hm).
      destruct m as [[ | | ] | ]; split; reflexivity.
  - destruct (getSmtpConfig_port env h Hh Hne) as (cfg & Hcfg & Hport & Hsec).
    exists cfg. split; [exact Hcfg |]. split.
    + intros p Hp. rewrite Hport, Hp. reflexivity.
    + intros m Hp Hm. rewrite Hport, Hsec, Hp. unfold Config.smtpDefaultPort.
      rewrite (smtpSecurity_mode env m Hm).
      destruct m as [[ | | ] | ]; split; reflexivity.
Qed.

(** The table read off concrete environments: all defaults (ssl), and an
    explicit port under starttls. *)
Lemma default_port_table_witness :
  (exists cfg, Config.getImapConfig Sample.env_defaults = Ok cfg /\
     Config.port cfg = Some 993 /\ Config.secure cfg = true) /\
  (exists cfg, Config.getSmtpConfig Sample.env_defaults = Ok cfg /\
     Config.smtp_port cfg = Some 465) /\
  (exists cfg, Config.getImapConfig Sample.env_explicit = Ok cfg /\
     Config.port cfg = Some 1993) /\
  (exists cfg, Config.getSmtpConfig Sample.env_explicit = Ok cfg /\
     Config.smtp_port cfg = Some 2525).
Proof.
  destruct (default_port_table Sample.env_defaults) as [Hi Hs].
  destruct (default_port_table Sample.env_explicit) as [Hi' Hs'].
  destruct (Hi "imap.example.org" eq_refl ltac:(discriminate)) as (c1 & E1 & _ & D1).
  destruct (Hs "smtp.example.org" eq_refl ltac:(discriminate)) as (c2 & E2 & _ & D2).
  destruct (Hi' "imap.example.org" eq_refl ltac:(discriminate)) as (c3 & E3 & P3 & _).
  destruct (Hs' "smtp.example.org" eq_refl ltac:(discriminate)) as (c4 & E4 & P4 & _).
  destruct (D1 None eq_refl eq_refl) as [D1p D1s].
  destruct (D2 None eq_refl eq_refl) as [D2p _].
  repeat split.
  - exists c1. repeat split; assumption.
  - exists c2. repeat split; assumption.
  - exists c3. split; [assumption | exact (P3 "1993" eq_refl)].
  - exists c4. split; [assumption | exact (P4 "2525" eq_refl)].
Defined.

(** ** The session discipline: logout on every exit path *)

Section SessionFacts.
Import Config Imap Spec.

Lemma try_finally_logout {A} (body : M A) (client : ImapFlow) (log : list Call) :
  try_finally body (logout_quietly client) log
  = (fst (body log), snd (body log) ++ [Logout]).
Proof.
  unfold try_finally, logout_quietly, catch_ignore, await.
  destruct (body log) as [r log1]. reflexivity.
Qed.

Lemma primary_with_logout {A} (answer : result unit) (client : ImapFlow)
    (op : Operation A) :
  primary (with_logout answer client) op = primary client op.
Proof. destruct op; reflexivity. Qed.

Variable env : gmap string string.
Variable imapflow : ImapFlowOptions -> ImapFlow.

Lemma perform_run {A} (op : Operation A) (cfg : ImapFlowOptions) :
  getImapConfig env = Ok cfg ->
  run (perform env imapflow op)
  = (outcome (primary (imapflow cfg) op), calls (primary (imapflow cfg) op) ++ [Logout]).
Proof.
  intros Hcfg. unfold run, outcome, calls, run.
  destruct op; simpl;
    unfold listMailboxes, listEmails, fetchEmail, searchEmails, moveEmail, deleteEmail,
      bind, lift, createClient; rewrite Hcfg; apply try_finally_logout.
Qed.

(** Without a host there is no client: the configuration error is thrown
    before any call is made, and there is no session to log out of. *)
Lemma perform_without_host {A} (op : Operation A) (e : Error) :
  getImapConfig env = Throw e -> run (perform env imapflow op) = (Throw e, []).
Proof.
  intros Hcfg. unfold run.
  destruct op; simpl;
    unfold listMailboxes, listEmails, fetchEmail, searchEmails, moveEmail, deleteEmail,
      bind, lift, createClient; rewrite Hcfg; reflexivity.
Qed.

(** An environment that passes the startup validation always yields a
    client. *)
Lemma validated_has_client :
  Startup.validate env = None -> exists cfg, getImapConfig env = Ok cfg.
Proof.
  unfold Startup.validate, getImapConfig.
  destruct (truthy_opt (env !! "EMAIL_ADDRESS")); simpl; [| discriminate].
  destruct (truthy_opt (env !! "IMAP_HOST")); simpl; [| discriminate].
  intros _. eexists. reflexivity.
Qed.

End SessionFacts.

(** C2. Logout on every exit path, and never in the way.  For each of the
    six operations, once the client exists (the host is configured, which
    the server checks before it serves anything): the calls made are those
    of the primary operation followed by one [logout], whether the primary
    operation returned or threw, and at whatever step; the outcome is exactly
    the primary operation's, result or error; and the outcome is the same
    whatever [logout] answers, a rejection included. *)
Theorem logout_on_every_exit_path (env : gmap string string)
    (imapflow : Config.ImapFlowOptions -> Imap.ImapFlow)
    (A : Type) (op : Spec.Operation A) (cfg : Config.ImapFlowOptions) :
  Config.getImapConfig env = Ok cfg ->
  calls (Spec.perform env imapflow op)
    = calls (Spec.primary (imapflow cfg) op) ++ [Logout]
  /\ outcome (Spec.perform env imapflow op)
      = outcome (Spec.primary (imapflow cfg) op)
  /\ forall answer : result unit,
       outcome (Spec.perform env (fun c => Spec.with_logout answer (imapflow c)) op)
       = outcome (Spec.perform env imapflow op).
Proof.
  intros Hcfg.
  pose proof (perform_run env imapflow op cfg Hcfg) as Hrun.
  repeat split.
  - unfold calls at 1. rewrite Hrun. reflexivity.
  - unfold outcome at 1. rewrite Hrun. reflexivity.
  - intros answer. unfold outcome at 1 2.
    rewrite Hrun, (perform_run env _ op cfg Hcfg). simpl.
    rewrite primary_with_logout. reflexivity.
Qed.

(** Against a server that is down, where [logout] is rejected too, and in
    an environment that passes the startup validation: [listMailboxes] tries
    to connect, then to log out, and throws the connection error, not the
    logout's. *)
Lemma logout_on_every_exit_path_witness :
  calls (Spec.perform Sample.env_defaults (fun _ => Sample.client_down) Spec.ListMailboxes)
    = [Connect; Logout]
  /\ outcome (Spec.perform Sample.env_defaults (fun _ => Sample.client_down) Spec.ListMailboxes)
      = Throw Sample.refused.
Proof.
  destruct (validated_has_client Sample.env_defaults eq_refl) as [cfg Hcfg].
  destruct (logout_on_every_exit_path Sample.env_defaults (fun _ => Sample.client_down)
              _ Spec.ListMailboxes cfg Hcfg) as (Hcalls & Hout & _).
  split; [rewrite Hcalls | rewrite Hout]; reflexivity.
Defined.

(** ** Sorting by UID *)

Section SortFacts.
Context {A : Type} (cmp : A -> A -> Z).

Lemma insert_sorted_perm (x : A) (l : list A) : insert_sorted cmp x l ≡ₚ x :: l.
Proof.
  induction l as [| y l IH]; simpl; [reflexivity |].
  destruct (cmp x y <=? 0); [reflexivity |].
  rewrite IH. apply Permutation_swap.
Qed.

Lemma sort_perm (l : list A) : sort cmp l ≡ₚ l.
Proof.
  induction l as [| x l IH]; simpl; [reflexivity |].
  rewrite insert_sorted_perm, IH. reflexivity.
Qed.

Lemma sort_length (l : list A) : length (sort cmp l) = length l.
Proof. apply Permutation_length, sort_perm. Qed.

(** Whenever the comparator decides an order [R] and [R] is transitive, the
    sort leaves the array ordered by [R]. *)
Context (R : A -> A -> Prop) `{!Transitive R}.
Hypothesis cmp_le : forall a b, cmp a b <= 0 -> R a b.
Hypothesis cmp_gt : forall a b, 0 < cmp a b -> R b a.

Lemma insert_sorted_sorted (x : A) (l : list A) :
  StronglySorted R l -> StronglySorted R (insert_sorted cmp x l).
Proof.
  induction 1 as [| y l Hl IH Hy]; simpl.
  - repeat constructor.
  - destruct (Z.leb_spec (cmp x y) 0) as [Hle | Hgt].
    + constructor; [constructor; assumption |].
      constructor; [apply cmp_le, Hle |].
      eapply Forall_impl; [exact Hy |]. intros z Hz.
      transitivity y; [apply cmp_le, Hle | exact Hz].
    + constructor; [exact IH |].
      rewrite insert_sorted_perm. constructor; [apply cmp_gt, Hgt | exact Hy].
Qed.

Lemma sort_sorted (l : list A) : StronglySorted R (sort cmp l).
Proof.
  induction l as [| x l IH]; simpl; [constructor | apply insert_sorted_sorted, IH].
Qed.

End SortFacts.

Section UidOrder.
Import Imap Spec.

(** The comparator [(a, b) => b.uid - a.uid] orders by UID, descending. *)
Lemma sort_by_uid_descending (messages : list FetchMessageObject) :
  uidDescending (map msg_uid (sort byUidDescending messages)).
Proof.
  unfold uidDescending.
  assert (Transitive (fun a b : FetchMessageObject => msg_uid a >= msg_uid b))
    as Htrans by (intros a b c Hab Hbc; simpl in *; lia).
  pose proof (sort_sorted byUidDescending
                (fun a b => msg_uid a >= msg_uid b)
                ltac:(unfold byUidDescending; intros; lia)
                ltac:(unfold byUidDescending; intros; lia) messages) as Hs.
  induction Hs as [| m l Hl IH Hm]; simpl; constructor; [exact IH |].
  rewrite Forall_map. exact Hm.
Qed.

Lemma messageToSummary_uid (messages : list FetchMessageObject) :
  map sum_uid (map messageToSummary messages) = map msg_uid messages.
Proof. rewrite map_map. reflexivity. Qed.

End UidOrder.

(** ** listEmails: pagination, ordering, the empty mailbox *)

Section ListEmailsFacts.
Import Config Imap Spec.

Lemma listEmails_body_run (client : ImapFlow) (mailbox : string) (page pageSize : Z)
    (mb : MailboxObject) :
  connect_ client = Ok tt ->
  mailboxOpen_ client mailbox true = Ok mb ->
  run (listEmails_body client mailbox page pageSize)
  = let total := mbox_exists mb in
    let end_ := total - (page - 1) * pageSize in
    let start := Z.max 1 (end_ - pageSize + 1) in
    if ((total =? 0) || (end_ <? 1))%bool
    then (Ok (emptyPage total page pageSize), [Connect; MailboxOpen mailbox true])
    else (match fetchAll_ client (sequenceRange (start, end_)) false with
          | Ok messages =>
              Ok {| le_total := total; le_page := page; le_pageSize := pageSize;
                    le_emails := map messageToSummary (sort byUidDescending messages) |}
          | Throw e => Throw e
          end,
          [Connect; MailboxOpen mailbox true;
           FetchAll (sequenceRange (start, end_)) false]).
Proof.
  intros Hc Ho. unfold run, listEmails_body, bind, await. rewrite Hc. simpl.
  rewrite Ho. simpl.
  destruct (mbox_exists mb =? 0); simpl; [reflexivity |].
  destruct (mbox_exists mb - (page - 1) * pageSize <? 1); simpl; [reflexivity |].
  unfold sequenceRange; simpl.
  destruct (fetchAll_ client _ false); reflexivity.
Qed.

(** Whatever the client answers, a page that is returned is either empty or
    the sorted answer of one [fetchAll]. *)
Lemma listEmails_body_outcome (client : ImapFlow) (mailbox : string)
    (page pageSize : Z) (r : ListEmailsResult) :
  outcome (listEmails_body client mailbox page pageSize) = Ok r ->
  le_emails r = [] \/
  exists range messages,
    fetchAll_ client range false = Ok messages /\
    le_emails r = map messageToSummary (sort byUidDescending messages).
Proof.
  unfold outcome, run, listEmails_body, bind, await.
  destruct (connect_ client) as [[] | e]; simpl; [| discriminate].
  destruct (mailboxOpen_ client mailbox true) as [mb | e]; simpl; [| discriminate].
  destruct (mbox_exists mb =? 0); simpl.
  { intros [= <-]. left. reflexivity. }
  destruct (mbox_exists mb - (page - 1) * pageSize <? 1); simpl.
  { intros [= <-]. left. reflexivity. }
  destruct (fetchAll_ client _ false) as [messages | e] eqn:Hf; simpl; [| discriminate].
  intros [= <-]. right. eexists _, messages. split; [exact Hf | reflexivity].
Qed.

Lemma pageWindow_Some (N P S : Z) (w : Z * Z) :
  1 <= P -> 1 <= S -> pageWindow N P S = Some w ->
  ((N =? 0) || (N - (P - 1) * S <? 1))%bool = false /\
  w = (Z.max 1 (N - (P - 1) * S - S + 1), N - (P - 1) * S).
Proof.
  unfold pageWindow. intros HP HS.
  destruct (Z.ltb_spec (N - (P - 1) * S) 1) as [Hlt | Hge]; [discriminate |].
  intros [= <-]. split; [| reflexivity].
  destruct (Z.eqb_spec N 0) as [-> | _]; [nia | reflexivity].
Qed.

Lemma pageWindow_None (N P S : Z) :
  1 <= P -> 1 <= S -> pageWindow N P S = None ->
  ((N =? 0) || (N - (P - 1) * S <? 1))%bool = true.
Proof.
  unfold pageWindow. intros HP HS.
  destruct (Z.ltb_spec (N - (P - 1) * S) 1) as [Hlt | Hge]; [| discriminate].
  intros _. apply orb_true_r.
Qed.

End ListEmailsFacts.

(** C1. The pagination engine.  With the mailbox open on [N] messages and
    [P >= 1], [S >= 1], [listEmails] does what the specification's pure
    function [pageWindow] says, where [end = N - (P-1)*S] and
    [start = max(1, end - S + 1)]: when [end < 1] it returns the empty page
    and fetches nothing; otherwise it fetches exactly the sequence range
    [start:end], which lies within [1..N] and holds at most [S] messages,
    fewer only when it starts at the oldest message, and whatever the server
    delivers for that range comes back as the page (no error of its own).
    For [N = 95], [S = 20]: page 1 is [76,95], page 5 is [1,15], page 6 is
    empty. *)
Theorem pagination_window (env : gmap string string)
    (imapflow : Config.ImapFlowOptions -> Imap.ImapFlow) (cfg : Config.ImapFlowOptions)
    (mailbox : string) (N P S : Z) :
  Config.getImapConfig env = Ok cfg ->
  Imap.connect_ (imapflow cfg) = Ok tt ->
  Imap.mailboxOpen_ (imapflow cfg) mailbox true = Ok {| Imap.mbox_exists := N |} ->
  1 <= P -> 1 <= S ->
  match Spec.pageWindow N P S with
  | None =>
      N - (P - 1) * S < 1 /\
      run (Imap.listEmails env imapflow mailbox P S)
      = (Ok (Spec.emptyPage N P S), [Connect; MailboxOpen mailbox true; Logout])
  | Some (start, end_) =>
      end_ = N - (P - 1) * S /\ start = Z.max 1 (end_ - S + 1) /\
      1 <= start <= end_ /\ end_ <= N /\ end_ - start + 1 <= S /\
      (end_ - start + 1 < S -> start = 1) /\
      calls (Imap.listEmails env imapflow mailbox P S)
      = [Connect; MailboxOpen mailbox true;
         FetchAll (Spec.sequenceRange (start, end_)) false; Logout] /\
      forall messages,
        Imap.fetchAll_ (imapflow cfg) (Spec.sequenceRange (start, end_)) false = Ok messages ->
        exists emails,
          outcome (Imap.listEmails env imapflow mailbox P S)
          = Ok {| Imap.le_total := N; Imap.le_page := P; Imap.le_pageSize := S;
                  Imap.le_emails := emails |} /\
          length emails = length messages
  end
  /\ Spec.pageWindow 95 1 20 = Some (76, 95)
  /\ Spec.pageWindow 95 5 20 = Some (1, 15)
  /\ Spec.pageWindow 95 6 20 = None.
Proof.
  intros Hcfg Hc Ho HP HS.
  pose proof (perform_run env imapflow (Spec.ListEmails mailbox P S) cfg Hcfg) as Hrun.
  simpl in Hrun. unfold outcome, calls in Hrun.
  rewrite (listEmails_body_run _ mailbox P S _ Hc Ho) in Hrun. simpl in Hrun.
  split; [| repeat split; reflexivity].
  destruct (Spec.pageWindow N P S) as [[start end_] |] eqn:Hw.
  - destruct (pageWindow_Some N P S _ HP HS Hw) as [Hcond [= -> ->]].
    rewrite Hcond in Hrun. simpl in Hrun.
    unfold Spec.pageWindow in Hw.
    destruct (Z.ltb_spec (N - (P - 1) * S) 1) as [Hlt | Hge]; [discriminate |].
    repeat split; try lia; try nia.
    + unfold calls. rewrite Hrun. reflexivity.
    + intros messages Hf. unfold outcome. rewrite Hrun. simpl.
      unfold Spec.sequenceRange in Hf. simpl in Hf. unfold Spec.sequenceRange. simpl.
      rewrite Hf. eexists. split; [reflexivity |].
      rewrite length_map. apply sort_length.
  - rewrite (pageWindow_None N P S HP HS Hw) in Hrun. simpl in Hrun.
    unfold Spec.pageWindow in Hw.
    destruct (Z.ltb_spec (N - (P - 1) * S) 1) as [Hlt | Hge]; [| discriminate].
    split; [exact Hlt | exact Hrun].
Qed.

(** 95 messages by pages of 20: page 1 fetches [76,95], page 5 fetches the
    short window [1,15] and returns its 15 messages, page 6 fetches nothing
    and is empty. *)
Lemma pagination_window_witness :
  calls (Imap.listEmails Sample.env_defaults (fun _ => Sample.client_95) "INBOX" 1 20)
  = [Connect; MailboxOpen "INBOX" true; FetchAll "76:95" false; Logout]
  /\ calls (Imap.listEmails Sample.env_defaults (fun _ => Sample.client_95) "INBOX" 5 20)
     = [Connect; MailboxOpen "INBOX" true; FetchAll "1:15" false; Logout]
  /\ (exists emails,
        outcome (Imap.listEmails Sample.env_defaults (fun _ => Sample.client_95) "INBOX" 5 20)
        = Ok {| Imap.le_total := 95; Imap.le_page := 5; Imap.le_pageSize := 20;
                Imap.le_emails := emails |}
        /\ length emails = 15%nat)
  /\ run (Imap.listEmails Sample.env_defaults (fun _ => Sample.client_95) "INBOX" 6 20)
     = (Ok (Spec.emptyPage 95 6 20), [Connect; MailboxOpen "INBOX" true; Logout]).
Proof.
  destruct (validated_has_client Sample.env_defaults eq_refl) as [cfg Hcfg].
  pose proof (fun P HP => pagination_window Sample.env_defaults
                (fun _ => Sample.client_95) cfg "INBOX" 95 P 20 Hcfg eq_refl eq_refl
                HP ltac:(lia)) as Hpage.
  destruct (Hpage 1 ltac:(lia)) as [H1 _].
  destruct (Hpage 5 ltac:(lia)) as [H5 _].
  destruct (Hpage 6 ltac:(lia)) as [H6 _].
  change (Spec.pageWindow 95 1 20) with (Some (76, 95)) in H1.
  change (Spec.pageWindow 95 5 20) with (Some (1, 15)) in H5.
  change (Spec.pageWindow 95 6 20) with (@None (Z * Z)) in H6.
  destruct H1 as (_ & _ & _ & _ & _ & _ & Hcalls1 & _).
  destruct H5 as (_ & _ & _ & _ & _ & _ & Hcalls5 & Hfetch5).
  destruct H6 as [_ Hrun6].
  split; [exact Hcalls1 |]. split; [exact Hcalls5 |]. split; [| exact Hrun6].
  destruct (Hfetch5 (map Sample.bare (seqZ 1 15)) eq_refl) as (emails & Hout & Hlen).
  exists emails. split; [exact Hout | exact Hlen].
Defined.

(** C8. Newest first, whatever the delivery order.  Every page that
    [listEmails] returns, for any environment, client, mailbox, page and
    page size, lists its emails by UID descending.  And when the window
    exists and the server delivers [messages] for it, in any order, the
    operation does return a page: the summaries of exactly those messages,
    by UID descending. *)
Theorem listEmails_sorted_descending (env : gmap string string)
    (imapflow : Config.ImapFlowOptions -> Imap.ImapFlow)
    (mailbox : string) (page pageSize : Z) :
  (forall r,
     outcome (Imap.listEmails env imapflow mailbox page pageSize) = Ok r ->
     Spec.uidDescending (map Imap.sum_uid (Imap.le_emails r)))
  /\ (forall cfg mb w messages,
        Config.getImapConfig env = Ok cfg ->
        Imap.connect_ (imapflow cfg) = Ok tt ->
        Imap.mailboxOpen_ (imapflow cfg) mailbox true = Ok mb ->
        1 <= page -> 1 <= pageSize ->
        Spec.pageWindow (Imap.mbox_exists mb) page pageSize = Some w ->
        Imap.fetchAll_ (imapflow cfg) (Spec.sequenceRange w) false = Ok messages ->
        exists r,
          outcome (Imap.listEmails env imapflow mailbox page pageSize) = Ok r /\
          Imap.le_emails r ≡ₚ map Imap.messageToSummary messages /\
          Spec.uidDescending (map Imap.sum_uid (Imap.le_emails r))).
Proof.
  split.
  - intros r Hr.
    destruct (Config.getImapConfig env) as [cfg | e] eqn:Hcfg.
    + pose proof (perform_run env imapflow (Spec.ListEmails mailbox page pageSize)
                    cfg Hcfg) as Hrun.
      simpl in Hrun. unfold outcome in Hr at 1. rewrite Hrun in Hr. simpl in Hr.
      destruct (listEmails_body_outcome _ _ _ _ _ Hr) as [-> | (range & messages & _ & ->)].
      * constructor.
      * rewrite messageToSummary_uid. apply sort_by_uid_descending.
    + pose proof (perform_without_host env imapflow
                    (Spec.ListEmails mailbox page pageSize) e Hcfg) as Hrun.
      simpl in Hrun. unfold outcome in Hr. rewrite Hrun in Hr. discriminate Hr.
  - intros cfg mb w messages Hcfg Hc Ho HP HS Hw Hf.
    pose proof (perform_run env imapflow (Spec.ListEmails mailbox page pageSize)
                  cfg Hcfg) as Hrun.
    simpl in Hrun. unfold outcome, calls in Hrun.
    rewrite (listEmails_body_run _ mailbox page pageSize _ Hc Ho) in Hrun.
    simpl in Hrun.
    destruct (pageWindow_Some _ _ _ _ HP HS Hw) as [Hcond ->].
    rewrite Hcond, Hf in Hrun. simpl in Hrun.
    eexists. unfold outcome. rewrite Hrun. simpl. split; [reflexivity |]. simpl.
    split.
    + apply Permutation_map, sort_perm.
    + rewrite messageToSummary_uid. apply sort_by_uid_descending.
Qed.

(** Page 1 of 95 messages: the server delivers UIDs 76 to 95 oldest first,
    the page lists them from 95 down to 76. *)
Lemma listEmails_sorted_descending_witness :
  exists r,
    outcome (Imap.listEmails Sample.env_defaults (fun _ => Sample.client_95) "INBOX" 1 20)
    = Ok r
    /\ map Imap.sum_uid (Imap.le_emails r) = reverse (seqZ 76 20)
    /\ Spec.uidDescending (map Imap.sum_uid (Imap.le_emails r)).
Proof.
  destruct (outcome (Imap.listEmails Sample.env_defaults (fun _ => Sample.client_95)
                       "INBOX" 1 20)) as [r | e] eqn:Hr;
    [ | vm_compute in Hr; discriminate Hr ].
  exists r. split; [reflexivity |]. split.
  - vm_compute in Hr. injection Hr as <-. vm_compute. reflexivity.
  - exact (proj1 (listEmails_sorted_descending Sample.env_defaults
                    (fun _ => Sample.client_95) "INBOX" 1 20) r Hr).
Defined.

(** C9. The empty mailbox.  When the mailbox opens on a message count of 0,
    [listEmails] returns the empty page ([total = 0], no emails) for any
    page and page size, and the only calls it makes are [connect],
    [mailboxOpen] and [logout]: nothing is fetched. *)
Theorem empty_mailbox_no_fetch (env : gmap string string)
    (imapflow : Config.ImapFlowOptions -> Imap.ImapFlow) (cfg : Config.ImapFlowOptions)
    (mailbox : string) (page pageSize : Z) :
  Config.getImapConfig env = Ok cfg ->
  Imap.connect_ (imapflow cfg) = Ok tt ->
  Imap.mailboxOpen_ (imapflow cfg) mailbox true = Ok {| Imap.mbox_exists := 0 |} ->
  run (Imap.listEmails env imapflow mailbox page pageSize)
  = (Ok {| Imap.le_total := 0; Imap.le_page := page; Imap.le_pageSize := pageSize;
           Imap.le_emails := [] |},
     [Connect; MailboxOpen mailbox true; Logout])
  /\ Forall (fun c => is_fetch c = false)
            (calls (Imap.listEmails env imapflow mailbox page pageSize)).
Proof.
  intros Hcfg Hc Ho.
  pose proof (perform_run env imapflow (Spec.ListEmails mailbox page pageSize)
                cfg Hcfg) as Hrun.
  simpl in Hrun. unfold outcome, calls in Hrun.
  rewrite (listEmails_body_run _ mailbox page pageSize _ Hc Ho) in Hrun.
  simpl in Hrun. split; [exact Hrun |].
  unfold calls. rewrite Hrun. simpl. repeat constructor.
Qed.

(** An empty mailbox, page 3 by 50, with a [logout] that is rejected. *)
Lemma empty_mailbox_no_fetch_witness :
  run (Imap.listEmails Sample.env_defaults (fun _ => Sample.client_empty) "INBOX" 3 50)
  = (Ok (Spec.emptyPage 0 3 50), [Connect; MailboxOpen "INBOX" true; Logout]).
Proof.
  destruct (Config.getImapConfig Sample.env_defaults) as [cfg | e] eqn:Hcfg;
    [ | vm_compute in Hcfg; discriminate Hcfg ].
  exact (proj1 (empty_mailbox_no_fetch Sample.env_defaults (fun _ => Sample.client_empty)
                  cfg "INBOX" 3 50 Hcfg eq_refl eq_refl)).
Defined.

(** ** The body-structure walker *)

Section WalkerFacts.
Import Imap Spec.

(** Induction over a body structure: a property holds of every node as soon
    as it holds of a node whenever it holds of its children. *)
Lemma structure_ind (P : MessageStructureObject -> Prop) :
  (forall node,
     (forall children, node_childNodes node = Some children -> Forall P children) ->
     P node) ->
  forall node, P node.
Proof.
  intros Hstep. fix IH 1. intros node. apply Hstep.
  destruct node as [ty pt sz d dp ps [children |]]; simpl.
  - assert (Hall : Forall P children).
    { induction children as [| c cs IHcs]; constructor; [apply IH | exact IHcs]. }
    intros cs [= <-]. exact Hall.
  - intros cs Heq. discriminate Heq.
Qed.

Lemma find_app_split {A} (f : A -> bool) (l1 l2 : list A) :
  List.find f (l1 ++ l2)
  = match List.find f l1 with
    | Some x => Some x
    | None => List.find f l2
    end.
Proof.
  induction l1 as [| x l1 IH]; simpl; [reflexivity |].
  destruct (f x); [reflexivity | exact IH].
Qed.

Lemma truthy_opt_nonEmpty (v : option string) : truthy_opt v = nonEmpty v.
Proof. destruct v; reflexivity. Qed.

Lemma find_candidate_part (type : string) (l : list MessageStructureObject) :
  truthy_opt (List.find (isCandidate type) l ≫= node_part)
  = bool_decide (is_Some (List.find (isCandidate type) l)).
Proof.
  destruct (List.find (isCandidate type) l) as [n |] eqn:Hfind; simpl.
  - apply find_some in Hfind as [_ Hc]. unfold isCandidate in Hc.
    apply andb_true_iff in Hc as [_ Hp]. rewrite truthy_opt_nonEmpty, Hp.
    reflexivity.
  - reflexivity.
Qed.

Lemma find_walk_preorder (type : string) (node : MessageStructureObject) :
  find_walk type node = firstPartOfType node type.
Proof.
  unfold firstPartOfType. induction node as [node IH] using structure_ind.
  destruct node as [ty pt sz d dp ps kids]. simpl in *.
  unfold isCandidate at 1. simpl.
  replace (bool_decide (ty = type)) with (String.eqb ty type)
    by (destruct (String.eqb_spec ty type);
        [rewrite bool_decide_eq_true_2 | rewrite bool_decide_eq_false_2]; auto).
  rewrite <- (truthy_opt_nonEmpty pt).
  destruct (String.eqb ty type && truthy_opt pt)%bool; [reflexivity |].
  destruct kids as [children |]; [| reflexivity].
  specialize (IH children eq_refl).
  induction children as [| c cs IHcs]; simpl; [reflexivity |].
  apply Forall_cons in IH as [Hc Hcs].
  rewrite find_app_split, Hc, find_candidate_part.
  destruct (List.find (isCandidate type) (preorder c)) as [n |]; simpl.
  - reflexivity.
  - apply IHcs, Hcs.
Qed.

Lemma qualifies_code (node : MessageStructureObject) :
  ((disposition_is node "attachment" || disposition_is node "inline")
   && (disposition_is node "attachment" || truthy_opt (node_filename node)))%bool
  = qualifies node.
Proof.
  unfold qualifies, hasDisposition, disposition_is, node_filename,
    dispositionFilename, contentTypeName.
  rewrite truthy_opt_nonEmpty.
  destruct (bool_decide (node_disposition node = Some "attachment")); simpl;
    [reflexivity |].
  destruct (bool_decide (node_disposition node = Some "inline")); simpl;
    [| reflexivity].
  destruct (node_dispositionParameters node ≫= (.!! "filename")); reflexivity.
Qed.

Lemma collect_walk_preorder (node : MessageStructureObject)
    (attachments : list AttachmentInfo) :
  collect_walk node attachments
  = attachments ++ map toAttachmentInfo (List.filter qualifies (preorder node)).
Proof.
  revert attachments. induction node as [node IH] using structure_ind.
  intros attachments.
  destruct node as [ty pt sz d dp ps kids].
  set (node := mkNode ty pt sz d dp ps kids) in *.
  change (preorder node)
    with (node :: match kids with
                  | Some children => flat_map preorder children
                  | None => []
                  end).
  change (collect_walk node attachments)
    with (let attachments :=
            if (disposition_is node "attachment" || disposition_is node "inline")%bool
            then if (disposition_is node "attachment"
                     || truthy_opt (node_filename node))%bool
                 then attachments ++ [toAttachmentInfo node] else attachments
            else attachments in
          match kids with
          | Some children =>
              fold_left (fun attachments child => collect_walk child attachments)
                        children attachments
          | None => attachments
          end).
  cbv zeta. simpl List.filter. rewrite <- (qualifies_code node).
  set (acc := if (disposition_is node "attachment" || disposition_is node "inline")%bool
              then _ else _).
  assert (Hacc : acc = attachments ++ map toAttachmentInfo
                   (if ((disposition_is node "attachment" || disposition_is node "inline")
                        && (disposition_is node "attachment"
                            || truthy_opt (node_filename node)))%bool
                    then [node] else [])).
  { unfold acc.
    destruct (disposition_is node "attachment" || disposition_is node "inline")%bool;
      simpl; [| rewrite app_nil_r; reflexivity].
    destruct (disposition_is node "attachment" || truthy_opt (node_filename node))%bool;
      simpl; [reflexivity | rewrite app_nil_r; reflexivity]. }
  assert (Hkids : forall children acc0,
             Forall (fun c => forall a, collect_walk c a
                       = a ++ map toAttachmentInfo (List.filter qualifies (preorder c)))
                    children ->
             fold_left (fun attachments child => collect_walk child attachments)
                       children acc0
             = acc0 ++ map toAttachmentInfo
                         (List.filter qualifies (flat_map preorder children))).
  { clear. induction children as [| c cs IHcs]; intros acc0 Hall; simpl.
    - rewrite app_nil_r. reflexivity.
    - apply Forall_cons in Hall as [Hc Hcs].
      rewrite Hc, (IHcs _ Hcs), List.filter_app, map_app, app_assoc. reflexivity. }
  rewrite Hacc.
  destruct ((disposition_is node "attachment" || disposition_is node "inline")
            && (disposition_is node "attachment" || truthy_opt (node_filename node)))%bool;
    destruct kids as [children |]; simpl;
    rewrite ?(Hkids children _ (IH children eq_refl)), ?app_nil_r, <- ?app_assoc;
    reflexivity.
Qed.

End WalkerFacts.

Section FirstMatch.
Context {A : Type} (f : A -> bool).

Lemma find_None_Forall (l : list A) :
  List.find f l = None <-> Forall (fun x => f x = false) l.
Proof.
  induction l as [| x l IH]; simpl.
  - split; [constructor | reflexivity].
  - destruct (f x) eqn:Hx.
    + split; [discriminate |]. intros H. apply Forall_cons in H as [H _]. congruence.
    + rewrite IH. split; [intros H; constructor; assumption |].
      intros H. apply Forall_cons in H as [_ H]. exact H.
Qed.

Lemma find_Some_first (l : list A) (x : A) :
  List.find f l = Some x <->
  exists before after,
    l = before ++ x :: after /\ Forall (fun y => f y = false) before /\ f x = true.
Proof.
  induction l as [| y l IH]; simpl.
  - split; [discriminate |]. intros (before & after & Hl & _).
    destruct before; discriminate Hl.
  - destruct (f y) eqn:Hy.
    + split.
      * intros [= <-]. exists [], l. repeat split; [constructor | exact Hy].
      * intros (before & after & Hl & Hb & Hx).
        destruct before as [| b before]; simpl in Hl.
        -- injection Hl as -> _. reflexivity.
        -- injection Hl as -> _. apply Forall_cons in Hb as [Hb _]. congruence.
    + rewrite IH. split.
      * intros (before & after & -> & Hb & Hx).
        exists (y :: before), after. repeat split; [constructor; assumption | exact Hx].
      * intros (before & after & Hl & Hb & Hx).
        destruct before as [| b before]; simpl in Hl.
        -- injection Hl as -> _. congruence.
        -- injection Hl as -> ->. apply Forall_cons in Hb as [_ Hb].
           exists before, after. repeat split; assumption.
Qed.

End FirstMatch.

(** C5. findPart answers with the first match in document order.  For
    every body structure and target type, [findPart] is the specification's
    findFirstPartOfType: it returns the part identifier of the first node,
    in depth-first pre-order, whose content type is the target and which
    carries a part identifier; every node before that one in document order
    fails the test; and it returns nothing exactly when no node passes it
    (in particular for an absent structure).  On multipart/alternative with
    text/plain (part 1) and text/html (part 2) the two searches answer "1"
    and "2". *)
Theorem findPart_first_in_document_order (tree : Imap.MessageStructureObject)
    (type : string) :
  Imap.findPart (Some tree) type = Spec.firstPartOfType tree type
  /\ (forall p,
        Imap.findPart (Some tree) type = Some p <->
        exists before node after,
          Spec.preorder tree = before ++ node :: after /\
          Forall (fun m => Spec.isCandidate type m = false) before /\
          Spec.isCandidate type node = true /\
          Imap.node_part node = Some p)
  /\ (Imap.findPart (Some tree) type = None <->
      Forall (fun m => Spec.isCandidate type m = false) (Spec.preorder tree))
  /\ Imap.findPart None type = None
  /\ Imap.findPart (Some Sample.alternative) "text/plain" = Some "1"
  /\ Imap.findPart (Some Sample.alternative) "text/html" = Some "2".
Proof.
  assert (Hfind : Imap.findPart (Some tree) type = Spec.firstPartOfType tree type)
    by apply find_walk_preorder.
  split; [exact Hfind |]. rewrite Hfind. unfold Spec.firstPartOfType.
  split; [| split; [| repeat split; reflexivity]].
  - intros p. split.
    + destruct (List.find (Spec.isCandidate type) (Spec.preorder tree)) as [n |] eqn:Hn;
        simpl; [| discriminate].
      intros Hp. apply find_Some_first in Hn as (before & after & Hl & Hb & Hc).
      exists before, n, after. repeat split; assumption.
    + intros (before & node & after & Hl & Hb & Hc & Hp).
      assert (List.find (Spec.isCandidate type) (Spec.preorder tree) = Some node) as ->
        by (apply find_Some_first; exists before, after; repeat split; assumption).
      exact Hp.
  - rewrite <- find_None_Forall.
    destruct (List.find (Spec.isCandidate type) (Spec.preorder tree)) as [n |] eqn:Hn;
      simpl; [| tauto].
    apply find_some in Hn as [_ Hc]. unfold Spec.isCandidate in Hc.
    apply andb_true_iff in Hc as [_ Hp].
    destruct (Imap.node_part n); [| discriminate Hp].
    split; discriminate.
Qed.

(** The nodes on which the stated rule and the code's rule part ways are
    those whose disposition carries an empty [filename]. *)
Lemma qualifies_agree (node : Imap.MessageStructureObject) :
  Spec.dispositionFilename node <> Some "" ->
  Spec.qualifies node = Spec.qualifiesAsStated node.
Proof.
  unfold Spec.qualifies, Spec.qualifiesAsStated. intros Hne.
  destruct (Spec.dispositionFilename node) as [f |]; [| reflexivity].
  destruct (String.eqb_spec f "") as [-> | Hf]; [contradiction |].
  simpl. destruct (String.eqb_spec f ""); [contradiction | reflexivity].
Qed.

Lemma qualifies_spelled_out (node : Imap.MessageStructureObject) :
  Spec.qualifies node = true <->
  Imap.node_disposition node = Some "attachment" \/
  (Imap.node_disposition node = Some "inline" /\
   exists f, f <> "" /\
     (Spec.dispositionFilename node = Some f \/
      (Spec.dispositionFilename node = None /\ Spec.contentTypeName node = Some f))).
Proof.
  unfold Spec.qualifies, Spec.hasDisposition.
  rewrite orb_true_iff, andb_true_iff, !bool_decide_eq_true.
  assert (Hne : forall v, Spec.nonEmpty v = true <-> exists f, f <> "" /\ v = Some f).
  { intros [s |]; simpl.
    - destruct (String.eqb_spec s "") as [-> | Hs]; simpl.
      + split; [discriminate | intros (f & Hf & [= <-]); contradiction].
      + split; [eauto | reflexivity].
    - split; [discriminate | intros (f & _ & Hf); discriminate Hf]. }
  destruct (Spec.dispositionFilename node) as [f |]; rewrite Hne.
  - split; (intros [H | [H (g & Hg & Hf)]]; [left; exact H | right]).
    + split; [exact H |]. exists g. split; [exact Hg | left; exact Hf].
    + split; [exact H |]. exists g. split; [exact Hg |].
      destruct Hf as [Hf | [Hf _]]; [exact Hf | discriminate Hf].
  - split; (intros [H | [H (g & Hg & Hf)]]; [left; exact H | right]).
    + split; [exact H |]. exists g. split; [exact Hg | right; split; [reflexivity | exact Hf]].
    + split; [exact H |]. exists g. split; [exact Hg |].
      destruct Hf as [Hf | [_ Hf]]; [discriminate Hf | exact Hf].
Qed.

(** C4, as amended.  For every body structure, [collectAttachments] emits
    one entry per qualifying node, in document order (a node before the
    nodes of its children, children in their order), whatever the size or
    type; a node qualifies exactly when its disposition is "attachment"
    (with or without a filename), or its disposition is "inline" and its
    filename is not empty, the filename being the disposition parameter
    [filename] when that parameter is present and the content-type parameter
    [name] only when it is absent.  Nodes with no disposition and inline
    nodes without such a filename are left out.  On every structure in which
    no disposition carries an empty [filename], this is the rule as the
    specification states it. *)
Theorem collectAttachments_document_order (tree : Imap.MessageStructureObject) :
  Imap.collectAttachments (Some tree)
    = map Imap.toAttachmentInfo (List.filter Spec.qualifies (Spec.preorder tree))
  /\ Imap.collectAttachments None = []
  /\ (forall node,
        Spec.qualifies node = true <->
        Imap.node_disposition node = Some "attachment" \/
        (Imap.node_disposition node = Some "inline" /\
         exists f, f <> "" /\
           (Spec.dispositionFilename node = Some f \/
            (Spec.dispositionFilename node = None /\
             Spec.contentTypeName node = Some f))))
  /\ (Forall (fun node => Spec.dispositionFilename node <> Some "") (Spec.preorder tree) ->
      Imap.collectAttachments (Some tree)
        = map Imap.toAttachmentInfo
            (List.filter Spec.qualifiesAsStated (Spec.preorder tree)))
  /\ map Imap.att_filename (Imap.collectAttachments (Some Sample.mixed))
     = [Some "logo.png"; Some "dot.gif"; None; Some "fwd.eml"; Some "data.csv"].
Proof.
  assert (Hwalk : Imap.collectAttachments (Some tree)
                  = map Imap.toAttachmentInfo
                      (List.filter Spec.qualifies (Spec.preorder tree)))
    by (simpl; rewrite collect_walk_preorder; reflexivity).
  split; [exact Hwalk |]. split; [reflexivity |].
  split; [exact qualifies_spelled_out |]. split; [| vm_compute; reflexivity].
  intros Hall. rewrite Hwalk. f_equal. clear Hwalk.
  induction Hall as [| n l Hn Hl IH]; simpl; [reflexivity |].
  rewrite (qualifies_agree n Hn), IH. reflexivity.
Qed.

(** A structure on which the rule is the stated one: the sample message,
    where the inline image without a filename is left out and the attachment
    without a filename is kept. *)
Lemma collectAttachments_document_order_witness :
  Imap.collectAttachments (Some Sample.mixed)
  = map Imap.toAttachmentInfo
      (List.filter Spec.qualifiesAsStated (Spec.preorder Sample.mixed)).
Proof.
  apply (collectAttachments_document_order Sample.mixed).
  vm_compute. repeat constructor; discriminate.
Defined.

(** C4, as stated, fails: an inline image whose disposition has an empty
    [filename] and whose content type has [name = "logo.png"] carries a
    filename in its content type, so the stated rule keeps it; the code reads
    the empty disposition filename, finds it falsy, and emits nothing. *)
Lemma inline_named_by_type_is_dropped :
  Imap.node_disposition Sample.inline_named_by_type = Some "inline"
  /\ Spec.contentTypeName Sample.inline_named_by_type = Some "logo.png"
  /\ Spec.qualifiesAsStated Sample.inline_named_by_type = true
  /\ Imap.collectAttachments (Some Sample.inline_named_by_type) = []
  /\ ~ (forall tree,
          Imap.collectAttachments (Some tree)
          = map Imap.toAttachmentInfo
              (List.filter Spec.qualifiesAsStated (Spec.preorder tree))).
Proof.
  repeat split; try (vm_compute; reflexivity).
  intros Hall. specialize (Hall Sample.inline_named_by_type).
  vm_compute in Hall. discriminate Hall.
Qed.

(** ** fetchEmail: the single-part body and the date *)

Section FetchEmailFacts.
Import Config Imap Spec.

Lemma formatDate_renders (envelope : option MessageEnvelopeObject) :
  exists s, formatDate envelope = Some s /\ rendersDate envelope s.
Proof.
  unfold formatDate, rendersDate.
  destruct (envelope ≫= env_date) as [[d | raw] |]; simpl; eauto.
Qed.

Lemma fetchEmail_body_date (client : ImapFlow) (mailbox : string) (uid : Z)
    (r : FetchEmailResult) :
  outcome (fetchEmail_body client mailbox uid) = Ok r ->
  exists msg,
    fetchOne_ client (String_ uid) = Ok (Some msg) /\
    fe_date r = formatDate (msg_envelope msg).
Proof.
  unfold outcome, run, fetchEmail_body, downloadText, bind, await, ret, throw.
  destruct (connect_ client) as [[] | e]; simpl; [| discriminate].
  destruct (mailboxOpen_ client mailbox true) as [mb | e]; simpl; [| discriminate].
  destruct (fetchOne_ client (String_ uid)) as [[msg |] | e]; simpl; try discriminate.
  intros H. exists msg. split; [reflexivity |].
  repeat match type of H with
         | context [match download_ ?c ?u ?q with _ => _ end] =>
             destruct (download_ c u q); simpl in H
         | context [if ?b then _ else _] => destruct b; simpl in H
         end;
    try discriminate H; injection H as <-; reflexivity.
Qed.

Lemma fetchEmail_body_single_part (client : ImapFlow) (mailbox : string) (uid : Z)
    (mb : MailboxObject) (msg : FetchMessageObject) (chunks : list string) :
  connect_ client = Ok tt ->
  mailboxOpen_ client mailbox true = Ok mb ->
  fetchOne_ client (String_ uid) = Ok (Some msg) ->
  findPart (msg_bodyStructure msg) "text/plain" = None ->
  findPart (msg_bodyStructure msg) "text/html" = None ->
  msg_bodyStructure msg ≫= node_childNodes = None ->
  download_ client (String_ uid) None = Ok chunks ->
  exists r,
    run (fetchEmail_body client mailbox uid)
    = (Ok r, [Connect; MailboxOpen mailbox true; FetchOne (String_ uid);
              Download (String_ uid) None]) /\
    (fe_textBody r, fe_htmlBody r)
    = (if bool_decide (node_type <$> msg_bodyStructure msg = Some "text/html")
       then (None, Some (concatChunks chunks))
       else (Some (concatChunks chunks), None)) /\
    fe_uid r = msg_uid msg /\
    fe_attachments r = collectAttachments (msg_bodyStructure msg).
Proof.
  intros Hc Ho Hf Ht Hh Hk Hd.
  unfold run, fetchEmail_body, downloadText, bind, await, ret.
  rewrite Hc. simpl. rewrite Ho. simpl. rewrite Hf. simpl.
  rewrite Ht, Hh, Hk. simpl. rewrite Hd. simpl.
  destruct (bool_decide (node_type <$> msg_bodyStructure msg = Some "text/html"));
    simpl; eexists; repeat split; reflexivity.
Qed.

End FetchEmailFacts.

(** C6. The single-part fallback.  When [fetchEmail] locates neither a
    text/plain nor a text/html part and the body structure has no child
    parts, it downloads the entire body (one download, with no part
    identifier) and assigns it to exactly one of the two bodies: to
    [htmlBody] when the top-level content type is text/html, leaving
    [textBody] unset, and to [textBody] otherwise, leaving [htmlBody]
    unset. *)
Theorem single_part_body_assignment (env : gmap string string)
    (imapflow : Config.ImapFlowOptions -> Imap.ImapFlow) (cfg : Config.ImapFlowOptions)
    (mailbox : string) (uid : Z) (mb : Imap.MailboxObject)
    (msg : Imap.FetchMessageObject) (chunks : list string) :
  Config.getImapConfig env = Ok cfg ->
  Imap.connect_ (imapflow cfg) = Ok tt ->
  Imap.mailboxOpen_ (imapflow cfg) mailbox true = Ok mb ->
  Imap.fetchOne_ (imapflow cfg) (String_ uid) = Ok (Some msg) ->
  Imap.findPart (Imap.msg_bodyStructure msg) "text/plain" = None ->
  Imap.findPart (Imap.msg_bodyStructure msg) "text/html" = None ->
  Imap.msg_bodyStructure msg ≫= Imap.node_childNodes = None ->
  Imap.download_ (imapflow cfg) (String_ uid) None = Ok chunks ->
  exists r,
    run (Imap.fetchEmail env imapflow mailbox uid)
    = (Ok r, [Connect; MailboxOpen mailbox true; FetchOne (String_ uid);
              Download (String_ uid) None; Logout])
    /\ (Imap.node_type <$> Imap.msg_bodyStructure msg = Some "text/html" ->
        Imap.fe_htmlBody r = Some (Imap.concatChunks chunks) /\
        Imap.fe_textBody r = None)
    /\ (Imap.node_type <$> Imap.msg_bodyStructure msg <> Some "text/html" ->
        Imap.fe_textBody r = Some (Imap.concatChunks chunks) /\
        Imap.fe_htmlBody r = None).
Proof.
  intros Hcfg Hc Ho Hf Ht Hh Hk Hd.
  destruct (fetchEmail_body_single_part _ mailbox uid mb msg chunks Hc Ho Hf Ht Hh Hk Hd)
    as (r & Hrun & Hbodies & _).
  pose proof (perform_run env imapflow (Spec.FetchEmail mailbox uid) cfg Hcfg) as Hp.
  simpl in Hp. unfold outcome, calls in Hp. rewrite Hrun in Hp. simpl in Hp.
  exists r. split; [exact Hp |]. split; intros Hty.
  - rewrite bool_decide_eq_true_2 in Hbodies by exact Hty.
    injection Hbodies as -> ->. split; reflexivity.
  - rewrite bool_decide_eq_false_2 in Hbodies by exact Hty.
    injection Hbodies as -> ->. split; reflexivity.
Qed.

(** A single-part text/html message: the whole body, delivered in two
    chunks, becomes [htmlBody]; [textBody] stays unset. *)
Lemma single_part_body_assignment_witness :
  exists r,
    run (Imap.fetchEmail Sample.env_defaults (fun _ => Sample.client_html_only) "INBOX" 42)
    = (Ok r, [Connect; MailboxOpen "INBOX" true; FetchOne "42"; Download "42" None; Logout])
    /\ Imap.fe_htmlBody r = Some "<p>Hello</p>"
    /\ Imap.fe_textBody r = None.
Proof.
  destruct (Config.getImapConfig Sample.env_defaults) as [cfg | e] eqn:Hcfg;
    [ | vm_compute in Hcfg; discriminate Hcfg ].
  destruct (single_part_body_assignment Sample.env_defaults
              (fun _ => Sample.client_html_only) cfg "INBOX" 42
              {| Imap.mbox_exists := 1 |} Sample.html_only ["<p>Hello"; "</p>"]
              Hcfg eq_refl eq_refl eq_refl eq_refl eq_refl eq_refl eq_refl)
    as (r & Hrun & Hhtml & _).
  exists r. split; [exact Hrun |]. exact (Hhtml eq_refl).
Defined.

(** C10. The date is always a string.  The [date] of every summary, and of
    every detail [fetchEmail] returns, is present: the ISO-8601 rendering of
    the envelope's [Date] when it carries one, and the literal string
    "undefined" when the envelope or its date is missing (a date that did not
    parse is reported by its raw header). *)
Theorem date_is_always_a_string :
  (forall msg,
     exists s, Imap.sum_date (Imap.messageToSummary msg) = Some s /\
               Spec.rendersDate (Imap.msg_envelope msg) s)
  /\ (forall env imapflow mailbox uid r,
        outcome (Imap.fetchEmail env imapflow mailbox uid) = Ok r ->
        exists cfg msg s,
          Config.getImapConfig env = Ok cfg /\
          Imap.fetchOne_ (imapflow cfg) (String_ uid) = Ok (Some msg) /\
          Imap.fe_date r = Some s /\
          Spec.rendersDate (Imap.msg_envelope msg) s)
  /\ (forall envelope d s,
        envelope ≫= Imap.env_date = Some (Imap.DateObject d) ->
        Spec.rendersDate envelope s -> s = toISOString d)
  /\ (forall envelope s,
        envelope = None \/ envelope ≫= Imap.env_date = None ->
        Spec.rendersDate envelope s -> s = "undefined").
Proof.
  split; [| split; [| split]].
  - intros msg. apply formatDate_renders.
  - intros env imapflow mailbox uid r Hr.
    destruct (Config.getImapConfig env) as [cfg | e] eqn:Hcfg.
    + pose proof (perform_run env imapflow (Spec.FetchEmail mailbox uid) cfg Hcfg) as Hp.
      simpl in Hp. unfold outcome in Hr at 1. rewrite Hp in Hr. simpl in Hr.
      destruct (fetchEmail_body_date _ _ _ _ Hr) as (msg & Hf & Hd).
      destruct (formatDate_renders (Imap.msg_envelope msg)) as (s & Hs & Hrend).
      exists cfg, msg, s. rewrite Hd. repeat split; assumption.
    + pose proof (perform_without_host env imapflow (Spec.FetchEmail mailbox uid)
                    e Hcfg) as Hp.
      simpl in Hp. unfold outcome in Hr. rewrite Hp in Hr. discriminate Hr.
  - intros envelope d s Hd. unfold Spec.rendersDate. rewrite Hd. auto.
  - intros envelope s Hnone. unfold Spec.rendersDate.
    destruct Hnone as [-> | ->]; auto.
Qed.

(** A message with no envelope, and one dated 2024-01-15 10:30 UTC. *)
Lemma date_is_always_a_string_witness :
  Imap.sum_date (Imap.messageToSummary (Sample.bare 7)) = Some "undefined"
  /\ Imap.sum_date (Imap.messageToSummary Sample.html_only)
     = Some "2024-01-15T10:30:00.000Z".
Proof.
  destruct date_is_always_a_string as (Hsum & _ & Hdate & Hnone).
  split.
  - destruct (Hsum (Sample.bare 7)) as (s & -> & Hs).
    f_equal. exact (Hnone None s (or_introl eq_refl) Hs).
  - destruct (Hsum Sample.html_only) as (s & -> & Hs).
    rewrite (Hdate (Imap.msg_envelope Sample.html_only)
               {| time_value := 1705314600000 |} s eq_refl Hs).
    reflexivity.
Defined.

(** ** searchEmails: the most recent matches *)

Section SearchEmailsFacts.
Import Config Imap Spec.

Lemma slice_from_last {A} (limit : Z) (l : list A) :
  1 <= limit -> slice_from (- limit) l = lastN (Z.to_nat limit) l.
Proof.
  intros Hl. unfold slice_from, lastN.
  destruct (Z.ltb_spec (- limit) 0) as [_ | Hge]; [| lia].
  f_equal. lia.
Qed.

Lemma lastN_length {A} (n : nat) (l : list A) :
  length (lastN n l) = Nat.min n (length l).
Proof. unfold lastN. rewrite length_drop. lia. Qed.

Lemma lastN_split {A} (n : nat) (l : list A) :
  l = take (length l - n) l ++ lastN n l.
Proof. unfold lastN. symmetry. apply take_drop. Qed.

Lemma ascending_reverse (l : list Z) :
  StronglySorted Z.lt l -> StronglySorted Z.ge (reverse l).
Proof.
  induction 1 as [| x l Hl IH Hx]; [constructor |].
  rewrite reverse_cons. apply StronglySorted_app_2.
  - intros x1 x2 H1 H2. rewrite elem_of_reverse in H1.
    apply list_elem_of_singleton in H2 as ->.
    rewrite Forall_forall in Hx. specialize (Hx x1 H1). lia.
  - exact IH.
  - repeat constructor.
Qed.

Lemma descending_unique (l1 l2 : list Z) :
  StronglySorted Z.ge l1 -> StronglySorted Z.ge l2 -> l1 ≡ₚ l2 -> l1 = l2.
Proof.
  apply StronglySorted_unique. intros x y Hxy Hyx. lia.
Qed.

Lemma searchEmails_body_run (client : ImapFlow) (mailbox : string)
    (criteria : SearchCriteria) (limit : Z) (mb : MailboxObject) (uids : list Z) :
  connect_ client = Ok tt ->
  mailboxOpen_ client mailbox true = Ok mb ->
  search_ client (buildQuery criteria) = Ok (Some uids) ->
  uids <> [] ->
  run (searchEmails_body client mailbox criteria limit)
  = (match fetchAll_ client (uidSet (slice_from (- limit) uids)) true with
     | Ok messages => Ok (map messageToSummary (sort byUidDescending messages))
     | Throw e => Throw e
     end,
     [Connect; MailboxOpen mailbox true; Search (buildQuery criteria);
      FetchAll (uidSet (slice_from (- limit) uids)) true]).
Proof.
  intros Hc Ho Hs Hne. unfold run, searchEmails_body, bind, await.
  rewrite Hc. simpl. rewrite Ho. simpl. rewrite Hs. simpl.
  destruct uids as [| u uids]; [contradiction |].
  unfold uidSet. destruct (fetchAll_ client _ true); reflexivity.
Qed.

End SearchEmailsFacts.

(** C3. The most recent matches.  When the search answers with a non-empty
    list of UIDs in ascending order and [limit >= 1], [searchEmails] keeps
    exactly the last [limit] UIDs of that list (all of them when there are
    fewer): the kept UIDs are a suffix of the list, each greater than every
    UID left out.  It fetches those and nothing else, and, the server
    delivering the messages of the UIDs asked for, returns their summaries
    by UID descending, that is the kept UIDs in reverse.  With [limit = 50]
    and 120 matches, 50 summaries come back. *)
Theorem searchEmails_keeps_most_recent (env : gmap string string)
    (imapflow : Config.ImapFlowOptions -> Imap.ImapFlow) (cfg : Config.ImapFlowOptions)
    (mailbox : string) (criteria : Imap.SearchCriteria) (limit : Z)
    (mb : Imap.MailboxObject) (uids : list Z) (messages : list Imap.FetchMessageObject) :
  Config.getImapConfig env = Ok cfg ->
  Imap.connect_ (imapflow cfg) = Ok tt ->
  Imap.mailboxOpen_ (imapflow cfg) mailbox true = Ok mb ->
  Imap.search_ (imapflow cfg) (Imap.buildQuery criteria) = Ok (Some uids) ->
  uids <> [] ->
  StronglySorted Z.lt uids ->
  1 <= limit ->
  Imap.fetchAll_ (imapflow cfg) (Spec.uidSet (Spec.lastN (Z.to_nat limit) uids)) true
    = Ok messages ->
  map Imap.msg_uid messages ≡ₚ Spec.lastN (Z.to_nat limit) uids ->
  length (Spec.lastN (Z.to_nat limit) uids) = Nat.min (Z.to_nat limit) (length uids)
  /\ (exists older,
        uids = older ++ Spec.lastN (Z.to_nat limit) uids /\
        forall u v, u ∈ older -> v ∈ Spec.lastN (Z.to_nat limit) uids -> u < v)
  /\ calls (Imap.searchEmails env imapflow mailbox criteria limit)
     = [Connect; MailboxOpen mailbox true; Search (Imap.buildQuery criteria);
        FetchAll (Spec.uidSet (Spec.lastN (Z.to_nat limit) uids)) true; Logout]
  /\ exists summaries,
       outcome (Imap.searchEmails env imapflow mailbox criteria limit) = Ok summaries
       /\ map Imap.sum_uid summaries = reverse (Spec.lastN (Z.to_nat limit) uids)
       /\ Spec.uidDescending (map Imap.sum_uid summaries)
       /\ (limit = 50 -> length uids = 120%nat -> length summaries = 50%nat).
Proof.
  intros Hcfg Hc Ho Hs Hne Hasc Hlimit Hf Hperm.
  pose proof (perform_run env imapflow (Spec.SearchEmails mailbox criteria limit)
                cfg Hcfg) as Hp.
  simpl in Hp. unfold outcome, calls in Hp.
  rewrite (searchEmails_body_run _ mailbox criteria limit mb uids Hc Ho Hs Hne) in Hp.
  rewrite (slice_from_last limit uids Hlimit), Hf in Hp. simpl in Hp.
  pose proof (lastN_split (Z.to_nat limit) uids) as Hsplit.
  assert (Hsel : StronglySorted Z.lt (Spec.lastN (Z.to_nat limit) uids)).
  { rewrite Hsplit in Hasc. apply StronglySorted_app_1_r in Hasc. exact Hasc. }
  assert (Huids : map Imap.msg_uid (sort Imap.byUidDescending messages)
                  = reverse (Spec.lastN (Z.to_nat limit) uids)).
  { apply descending_unique.
    - apply sort_by_uid_descending.
    - apply ascending_reverse, Hsel.
    - rewrite reverse_Permutation, <- Hperm.
      apply Permutation_map, sort_perm. }
  split; [apply lastN_length |]. split; [| split].
  - exists (take (length uids - Z.to_nat limit) uids). split; [exact Hsplit |].
    intros u v Hu Hv. rewrite Hsplit in Hasc.
    exact (StronglySorted_app_1_elem_of _ _ _ u v Hasc Hu Hv).
  - unfold calls. rewrite Hp. reflexivity.
  - eexists. unfold outcome. rewrite Hp. simpl. split; [reflexivity |].
    rewrite messageToSummary_uid. split; [exact Huids |].
    split; [apply sort_by_uid_descending |].
    intros -> Hlen. rewrite length_map, sort_length.
    rewrite <- (length_map Imap.msg_uid), Hperm, lastN_length, Hlen. reflexivity.
Qed.

(** 120 matches with UIDs 101 to 220 and [limit = 50]: UIDs 171 to 220 are
    fetched and come back as 220 down to 171. *)
Lemma searchEmails_keeps_most_recent_witness :
  exists summaries,
    outcome (Imap.searchEmails Sample.env_defaults (fun _ => Sample.client_search)
               "INBOX" Sample.no_criteria 50) = Ok summaries
    /\ map Imap.sum_uid summaries = reverse (seqZ 171 50)
    /\ length summaries = 50%nat.
Proof.
  destruct (Config.getImapConfig Sample.env_defaults) as [cfg | e] eqn:Hcfg;
    [ | vm_compute in Hcfg; discriminate Hcfg ].
  assert (Hasc : StronglySorted Z.lt (seqZ 101 120)).
  { apply Sorted_StronglySorted; [intros x y z; lia |].
    vm_compute. repeat (constructor; [| first [constructor; reflexivity | constructor]]).
    constructor. }
  destruct (searchEmails_keeps_most_recent Sample.env_defaults
              (fun _ => Sample.client_search) cfg "INBOX" Sample.no_criteria 50
              {| Imap.mbox_exists := 500 |} (seqZ 101 120)
              (map Sample.bare (seqZ 171 50))
              Hcfg eq_refl eq_refl eq_refl ltac:(discriminate) Hasc ltac:(lia)
              ltac:(vm_compute; reflexivity) ltac:(vm_compute; reflexivity))
    as (_ & _ & _ & summaries & Hout & Huids & _ & Hlen).
  exists summaries. split; [exact Hout |]. split; [exact Huids |].
  exact (Hlen eq_refl eq_refl).
Defined.

(** * Further properties of the sources *)

(** ** Configuration: hosts, credentials, TLS flags, ports *)

Section ConfigShape.
Import Config.
Variable env : gmap string string.

Lemma truthy_opt_false (v : option string) :
  truthy_opt v = false <-> v = None \/ v = Some "".
Proof.
  destruct v as [s |]; simpl; [| tauto]. unfold truthy.
  destruct (String.eqb_spec s "") as [-> | Hs]; simpl.
  - tauto.
  - split; [discriminate |]. intros [H | [= H]]; [discriminate H | contradiction].
Qed.

Lemma truthy_opt_true (v : option string) :
  truthy_opt v = true <-> exists s, v = Some s /\ s <> "".
Proof.
  destruct v as [s |]; simpl.
  - unfold truthy. destruct (String.eqb_spec s "") as [-> | Hs]; simpl.
    + split; [discriminate | intros (s & [= <-] & Hs); contradiction].
    + split; [eauto | reflexivity].
  - split; [discriminate | intros (s & H & _); discriminate H].
Qed.

(** The configuration [getImapConfig] returns, field by field. *)
Lemma getImapConfig_cases :
  (truthy_opt (env !! "IMAP_HOST") = false /\
   getImapConfig env = Throw (mkError "IMAP_HOST is required"))
  \/ (truthy_opt (env !! "IMAP_HOST") = true /\
      getImapConfig env
      = Ok {| host := nullish_or (env !! "IMAP_HOST") "";
              port := parseInt (nullish_or (env !! "IMAP_PORT")
                                  (String_ (imapDefaultPort env)));
              secure := String.eqb (imapSecurity env) "ssl";
              logger := false;
              tls_rejectUnauthorized := sslVerify env;
              auth := if (truthy (password env)
                          || negb (String.eqb (imapSecurity env) "none"))%bool
                      then Some (username env, password env) else None |}).
Proof.
  unfold getImapConfig.
  destruct (truthy_opt (env !! "IMAP_HOST")); simpl; [right | left; split; reflexivity].
  split; [reflexivity |].
  destruct (String.eqb_spec (imapSecurity env) "starttls") as [Hs | Hs].
  - rewrite Hs. simpl. destruct (truthy (password env)); reflexivity.
  - destruct (truthy (password env) || negb (String.eqb (imapSecurity env) "none"))%bool;
      reflexivity.
Qed.

Lemma getSmtpConfig_cases :
  (truthy_opt (env !! "SMTP_HOST") = false /\
   getSmtpConfig env = Throw (mkError "SMTP_HOST is required"))
  \/ (truthy_opt (env !! "SMTP_HOST") = true /\
      getSmtpConfig env
      = Ok {| smtp_host := nullish_or (env !! "SMTP_HOST") "";
              smtp_port := parseInt (nullish_or (env !! "SMTP_PORT")
                                       (String_ (smtpDefaultPort env)));
              smtp_secure := String.eqb (smtpSecurity env) "ssl";
              smtp_requireTLS := String.eqb (smtpSecurity env) "starttls";
              smtp_tls_rejectUnauthorized := sslVerify env;
              smtp_auth := if (truthy (password env)
                               || negb (String.eqb (smtpSecurity env) "none"))%bool
                           then Some (username env, password env) else None |}).
Proof.
  unfold getSmtpConfig.
  destruct (truthy_opt (env !! "SMTP_HOST")); simpl; [right | left; split; reflexivity].
  split; [reflexivity |].
  destruct (truthy (password env) || negb (String.eqb (smtpSecurity env) "none"))%bool;
    reflexivity.
Qed.

Lemma security_is (var s : string) :
  String.eqb (nullish_or (env !! var) "ssl") s = true <->
  env !! var = Some s \/ (env !! var = None /\ s = "ssl").
Proof.
  rewrite String.eqb_eq. destruct (env !! var) as [v |]; simpl.
  - split; [intros ->; left; reflexivity |].
    intros [[= ->] | [H _]]; [reflexivity | discriminate H].
  - split; [intros <-; right; split; reflexivity |].
    intros [H | [_ ->]]; [discriminate H | reflexivity].
Qed.

End ConfigShape.

(** X1. A host is required, and nothing else.  [getImapConfig] throws
    exactly when [IMAP_HOST] is unset or empty, always with the message
    "IMAP_HOST is required"; likewise [getSmtpConfig] with [SMTP_HOST].  No
    other variable, port and credentials included, can make them throw. *)
Theorem config_requires_host_only (env : gmap string string) :
  ((exists e, Config.getImapConfig env = Throw e) <->
   env !! "IMAP_HOST" = None \/ env !! "IMAP_HOST" = Some "")
  /\ (forall e, Config.getImapConfig env = Throw e -> e = mkError "IMAP_HOST is required")
  /\ ((exists e, Config.getSmtpConfig env = Throw e) <->
      env !! "SMTP_HOST" = None \/ env !! "SMTP_HOST" = Some "")
  /\ (forall e, Config.getSmtpConfig env = Throw e -> e = mkError "SMTP_HOST is required").
Proof.
  destruct (getImapConfig_cases env) as [[Hh Hi] | [Hh Hi]];
    destruct (getSmtpConfig_cases env) as [[Hs Hc] | [Hs Hc]];
    rewrite Hi, Hc; rewrite <- !truthy_opt_false, Hh, Hs;
    repeat split;
    try (intros [e He]; discriminate He); try discriminate;
    try (intros _; eexists; reflexivity); try (intros e [= <-]; reflexivity);
    try reflexivity.
Qed.

(** X2. Credentials.  A resolved configuration carries no [auth] exactly
    when its security mode is "none" and [EMAIL_PASSWORD] is unset or empty.
    Otherwise the password is [EMAIL_PASSWORD] (empty when unset) and the
    user is [EMAIL_USERNAME] when that variable is set, even to the empty
    string, and [EMAIL_ADDRESS] (or the empty string) only when it is unset.
    The same holds of the SMTP configuration with [SMTP_SECURITY]. *)
Theorem config_credentials (env : gmap string string) :
  (forall cfg, Config.getImapConfig env = Ok cfg ->
     (Config.auth cfg = None <->
      env !! "IMAP_SECURITY" = Some "none" /\
      (env !! "EMAIL_PASSWORD" = None \/ env !! "EMAIL_PASSWORD" = Some ""))
     /\ forall user pass, Config.auth cfg = Some (user, pass) ->
          pass = nullish_or (env !! "EMAIL_PASSWORD") "" /\
          user = match env !! "EMAIL_USERNAME" with
                 | Some name => name
                 | None => nullish_or (env !! "EMAIL_ADDRESS") ""
                 end)
  /\ (forall cfg, Config.getSmtpConfig env = Ok cfg ->
        (Config.smtp_auth cfg = None <->
         env !! "SMTP_SECURITY" = Some "none" /\
         (env !! "EMAIL_PASSWORD" = None \/ env !! "EMAIL_PASSWORD" = Some ""))
        /\ forall user pass, Config.smtp_auth cfg = Some (user, pass) ->
             pass = nullish_or (env !! "EMAIL_PASSWORD") "" /\
             user = match env !! "EMAIL_USERNAME" with
                    | Some name => name
                    | None => nullish_or (env !! "EMAIL_ADDRESS") ""
                    end).
Proof.
  assert (Hrule : forall var,
            (if (truthy (Config.password env)
                 || negb (String.eqb (nullish_or (env !! var) "ssl") "none"))%bool
             then Some (Config.username env, Config.password env) else None) = None <->
            env !! var = Some "none" /\
            (env !! "EMAIL_PASSWORD" = None \/ env !! "EMAIL_PASSWORD" = Some "")).
  { intros var. rewrite <- truthy_opt_false.
    pose proof (security_is env var "none") as Hsec.
    unfold Config.password.
    destruct (String.eqb (nullish_or (env !! var) "ssl") "none"); simpl.
    - assert (env !! var = Some "none") as Hv
        by (destruct (proj1 Hsec eq_refl) as [H | [_ H]]; [exact H | discriminate H]).
      destruct (env !! "EMAIL_PASSWORD") as [pw |]; simpl; [| tauto].
      destruct (truthy pw); simpl; split; try tauto; try discriminate.
      intros [_ H]. discriminate H.
    - rewrite orb_true_r. split; [discriminate |]. intros [Hv _].
      assert (false = true) as H by (apply Hsec; left; exact Hv). discriminate H. }
  assert (Huser : Config.username env
                  = match env !! "EMAIL_USERNAME" with
                    | Some name => name
                    | None => nullish_or (env !! "EMAIL_ADDRESS") ""
                    end)
    by (unfold Config.username; destruct (env !! "EMAIL_USERNAME"); reflexivity).
  split; intros cfg Hcfg.
  - destruct (getImapConfig_cases env) as [[_ H] | [_ H]]; rewrite H in Hcfg;
      [discriminate Hcfg | injection Hcfg as <-]. simpl.
    split; [apply Hrule |]. intros user pass.
    destruct (truthy (Config.password env)
              || negb (String.eqb (Config.imapSecurity env) "none"))%bool;
      [| discriminate].
    intros [= <- <-]. split; [reflexivity | exact Huser].
  - destruct (getSmtpConfig_cases env) as [[_ H] | [_ H]]; rewrite H in Hcfg;
      [discriminate Hcfg | injection Hcfg as <-]. simpl.
    split; [apply Hrule |]. intros user pass.
    destruct (truthy (Config.password env)
              || negb (String.eqb (Config.smtpSecurity env) "none"))%bool;
      [| discriminate].
    intros [= <- <-]. split; [reflexivity | exact Huser].
Qed.

(** Credentials read off two environments: all defaults, and no security
    with no password. *)
Lemma config_credentials_witness :
  (exists cfg, Config.getImapConfig Sample.env_defaults = Ok cfg /\
     Config.auth cfg = Some ("jane@example.org", "secret"))
  /\ (exists cfg, Config.getSmtpConfig Examples.env_plain = Ok cfg /\
        Config.smtp_auth cfg = None).
Proof.
  destruct (config_credentials Sample.env_defaults) as [Hi _].
  destruct (config_credentials Examples.env_plain) as [_ Hs].
  split.
  - destruct (Config.getImapConfig Sample.env_defaults) as [cfg | e] eqn:Hcfg;
      [| vm_compute in Hcfg; discriminate Hcfg].
    exists cfg. split; [reflexivity |].
    destruct (Hi cfg eq_refl) as [Hnone Hsome].
    destruct (Config.auth cfg) as [[user pass] |] eqn:Hauth.
    + destruct (Hsome user pass eq_refl) as [-> ->]. reflexivity.
    + destruct (proj1 Hnone eq_refl) as [H _]. vm_compute in H. discriminate H.
  - destruct (Config.getSmtpConfig Examples.env_plain) as [cfg | e] eqn:Hcfg;
      [| vm_compute in Hcfg; discriminate Hcfg].
    exists cfg. split; [reflexivity |].
    apply (Hs cfg eq_refl). split; [reflexivity | left; reflexivity].
Defined.

(** X3. Certificate verification.  In both configurations
    [tls.rejectUnauthorized] is switched off exactly when [SSL_VERIFY] is
    the string "false"; any other value, and no value, leaves it on. *)
Theorem config_certificate_verification (env : gmap string string) :
  (forall cfg, Config.getImapConfig env = Ok cfg ->
     (Config.tls_rejectUnauthorized cfg = false <-> env !! "SSL_VERIFY" = Some "false"))
  /\ (forall cfg, Config.getSmtpConfig env = Ok cfg ->
        (Config.smtp_tls_rejectUnauthorized cfg = false <->
         env !! "SSL_VERIFY" = Some "false")).
Proof.
  assert (Hv : Config.sslVerify env = false <-> env !! "SSL_VERIFY" = Some "false").
  { unfold Config.sslVerify. rewrite negb_false_iff. apply bool_decide_eq_true. }
  split; intros cfg Hcfg.
  - destruct (getImapConfig_cases env) as [[_ H] | [_ H]]; rewrite H in Hcfg;
      [discriminate Hcfg | injection Hcfg as <-]. exact Hv.
  - destruct (getSmtpConfig_cases env) as [[_ H] | [_ H]]; rewrite H in Hcfg;
      [discriminate Hcfg | injection Hcfg as <-]. exact Hv.
Qed.

(** X4. Security flags for any value of the security variable.  IMAP
    [secure] and SMTP [secure] are set exactly when the variable is unset or
    is "ssl"; SMTP [requireTLS] exactly when it is "starttls"; the two SMTP
    flags are never set together.  The comparison is exact, so any other
    value (a misspelling, different capitals) is treated like "none" for the
    port: 143 for IMAP, 25 for SMTP, when no port is given. *)
Theorem config_security_flags (env : gmap string string) :
  (forall cfg, Config.getImapConfig env = Ok cfg ->
     (Config.secure cfg = true <->
      env !! "IMAP_SECURITY" = None \/ env !! "IMAP_SECURITY" = Some "ssl")
     /\ (forall s, env !! "IMAP_SECURITY" = Some s -> s <> "ssl" ->
                   env !! "IMAP_PORT" = None -> Config.port cfg = Some 143))
  /\ (forall cfg, Config.getSmtpConfig env = Ok cfg ->
        (Config.smtp_secure cfg = true <->
         env !! "SMTP_SECURITY" = None \/ env !! "SMTP_SECURITY" = Some "ssl")
        /\ (Config.smtp_requireTLS cfg = true <-> env !! "SMTP_SECURITY" = Some "starttls")
        /\ (Config.smtp_secure cfg && Config.smtp_requireTLS cfg)%bool = false
        /\ (forall s, env !! "SMTP_SECURITY" = Some s -> s <> "ssl" -> s <> "starttls" ->
                      env !! "SMTP_PORT" = None -> Config.smtp_port cfg = Some 25)).
Proof.
  split; intros cfg Hcfg.
  - destruct (getImapConfig_cases env) as [[_ H] | [_ H]]; rewrite H in Hcfg;
      [discriminate Hcfg | injection Hcfg as <-]. simpl. split.
    + unfold Config.imapSecurity. rewrite security_is. split.
      * intros [Hs | [Hs _]]; [right | left]; exact Hs.
      * intros [Hs | Hs]; [right; split; [exact Hs | reflexivity] | left; exact Hs].
    + intros s Hs Hne Hp. rewrite Hp. unfold Config.imapDefaultPort, Config.imapSecurity.
      rewrite Hs. simpl. destruct (String.eqb_spec s "ssl"); [contradiction | reflexivity].
  - destruct (getSmtpConfig_cases env) as [[_ H] | [_ H]]; rewrite H in Hcfg;
      [discriminate Hcfg | injection Hcfg as <-]. simpl. split; [| split; [| split]].
    + unfold Config.smtpSecurity. rewrite security_is. split.
      * intros [Hs | [Hs _]]; [right | left]; exact Hs.
      * intros [Hs | Hs]; [right; split; [exact Hs | reflexivity] | left; exact Hs].
    + unfold Config.smtpSecurity. rewrite security_is. split.
      * intros [Hs | [_ Hs]]; [exact Hs | discriminate Hs].
      * intros Hs. left. exact Hs.
    + destruct (String.eqb_spec (Config.smtpSecurity env) "ssl") as [Hs | Hs];
        [rewrite Hs |]; reflexivity.
    + intros s Hs Hne1 Hne2 Hp. rewrite Hp.
      unfold Config.smtpDefaultPort, Config.smtpSecurity. rewrite Hs. simpl.
      destruct (String.eqb_spec s "ssl"); [contradiction |].
      destruct (String.eqb_spec s "starttls"); [contradiction | reflexivity].
Qed.

(** ** Ports written in decimal *)

Section DecimalRoundTrip.







End DecimalRoundTrip.



(** ** Startup validation against the resolvers *)

(** X6. What the startup validation buys.  In an environment that passes
    the checks of index.ts, neither resolver can throw, the sender address
    that [sendEmail] requires is there, and each configuration whose
    security mode is not "none" carries credentials with a non-empty
    password. *)
Theorem startup_validation_suffices (env : gmap string string) :
  Startup.validate env = None ->
  (exists cfg, Config.getImapConfig env = Ok cfg /\
     (env !! "IMAP_SECURITY" <> Some "none" ->
      exists user pass, Config.auth cfg = Some (user, pass) /\ pass <> ""))
  /\ (exists cfg, Config.getSmtpConfig env = Ok cfg /\
        (env !! "SMTP_SECURITY" <> Some "none" ->
         exists user pass, Config.smtp_auth cfg = Some (user, pass) /\ pass <> ""))
  /\ (exists from, env !! "EMAIL_ADDRESS" = Some from /\ from <> "").
Proof.
  unfold Startup.validate.
  destruct (truthy_opt (env !! "EMAIL_ADDRESS")) eqn:Ha; simpl; [| discriminate].
  destruct (truthy_opt (env !! "IMAP_HOST")) eqn:Hi; simpl; [| discriminate].
  destruct (truthy_opt (env !! "SMTP_HOST")) eqn:Hs; simpl; [| discriminate].
  destruct (negb (truthy_opt (env !! "EMAIL_PASSWORD"))
            && negb (String.eqb (nullish_or (env !! "IMAP_SECURITY") "ssl") "none"))%bool
    eqn:Hpi; [discriminate |].
  destruct (negb (truthy_opt (env !! "EMAIL_PASSWORD"))
            && negb (String.eqb (nullish_or (env !! "SMTP_SECURITY") "ssl") "none"))%bool
    eqn:Hps; [discriminate |].
  intros _.
  assert (Hpass : forall var,
            (negb (truthy_opt (env !! "EMAIL_PASSWORD"))
             && negb (String.eqb (nullish_or (env !! var) "ssl") "none"))%bool = false ->
            env !! var <> Some "none" ->
            (truthy (Config.password env)
             || negb (String.eqb (nullish_or (env !! var) "ssl") "none"))%bool = true
            /\ Config.password env <> "").
  { intros var Hchk Hne.
    assert (String.eqb (nullish_or (env !! var) "ssl") "none" = false) as Hsec.
    { apply not_true_is_false. rewrite security_is.
      intros [H | [_ H]]; [contradiction | discriminate H]. }
    rewrite Hsec, andb_true_r in Hchk. apply negb_false_iff in Hchk.
    rewrite Hsec, orb_true_r. split; [reflexivity |].
    apply truthy_opt_true in Hchk as (pw & Hpw & Hne'). unfold Config.password.
    rewrite Hpw. exact Hne'. }
  split; [| split].
  - destruct (getImapConfig_cases env) as [[Hh _] | [_ Hcfg]]; [congruence |].
    eexists. split; [exact Hcfg |]. simpl. intros Hne.
    destruct (Hpass "IMAP_SECURITY" Hpi Hne) as [Hrule Hpw].
    unfold Config.imapSecurity. rewrite Hrule. eauto.
  - destruct (getSmtpConfig_cases env) as [[Hh _] | [_ Hcfg]]; [congruence |].
    eexists. split; [exact Hcfg |]. simpl. intros Hne.
    destruct (Hpass "SMTP_SECURITY" Hps Hne) as [Hrule Hpw].
    unfold Config.smtpSecurity. rewrite Hrule. eauto.
  - apply truthy_opt_true. exact Ha.
Qed.

(** The default environment passes the validation and gets credentials. *)
Lemma startup_validation_suffices_witness :
  exists cfg user pass,
    Config.getImapConfig Sample.env_defaults = Ok cfg /\
    Config.auth cfg = Some (user, pass) /\ pass <> "".
Proof.
  destruct (startup_validation_suffices Sample.env_defaults eq_refl)
    as [(cfg & Hcfg & Hauth) _].
  destruct (Hauth ltac:(vm_compute; discriminate)) as (user & pass & Ha & Hp).
  exists cfg, user, pass. repeat split; assumption.
Defined.

(** X7. The announced port is the port used.  The IMAP and SMTP ports that
    index.ts prints at startup, computed there from its own copy of the
    default table, are the ports the resolvers hand to the clients: each
    resolved port is [parseInt] of the announced string. *)
Theorem announced_port_is_used (env : gmap string string) :
  (forall cfg, Config.getImapConfig env = Ok cfg ->
     Config.port cfg = parseInt (Startup.imapPort env))
  /\ (forall cfg, Config.getSmtpConfig env = Ok cfg ->
        Config.smtp_port cfg = parseInt (Startup.smtpPort env)).
Proof.
  split; intros cfg Hcfg.
  - destruct (getImapConfig_cases env) as [[_ H] | [_ H]]; rewrite H in Hcfg;
      [discriminate Hcfg | injection Hcfg as <-]. simpl.
    unfold Startup.imapPort, Config.imapDefaultPort, Config.imapSecurity.
    destruct (env !! "IMAP_PORT"); [reflexivity |]. simpl.
    destruct (String.eqb (nullish_or (env !! "IMAP_SECURITY") "ssl") "ssl"); reflexivity.
  - destruct (getSmtpConfig_cases env) as [[_ H] | [_ H]]; rewrite H in Hcfg;
      [discriminate Hcfg | injection Hcfg as <-]. simpl.
    unfold Startup.smtpPort, Config.smtpDefaultPort, Config.smtpSecurity.
    destruct (env !! "SMTP_PORT"); [reflexivity |]. simpl.
    destruct (String.eqb (nullish_or (env !! "SMTP_SECURITY") "ssl") "ssl");
      [reflexivity |].
    destruct (String.eqb (nullish_or (env !! "SMTP_SECURITY") "ssl") "starttls");
      reflexivity.
Qed.

(** ** Call logs: what every run looks like *)

Section EmitsFacts.
Import Trace.
Context (Q : Call -> Prop).

Lemma emits_ret {A} (a : A) : emits Q (ret a).
Proof. intros log. exists []. rewrite app_nil_r. split; [reflexivity | constructor]. Qed.

Lemma emits_throw {A} (e : Error) : emits Q (@throw A e).
Proof. intros log. exists []. rewrite app_nil_r. split; [reflexivity | constructor]. Qed.

Lemma emits_lift {A} (r : result A) : emits Q (lift r).
Proof. intros log. exists []. rewrite app_nil_r. split; [reflexivity | constructor]. Qed.

Lemma emits_await {A} (c : Call) (answer : result A) : Q c -> emits Q (await c answer).
Proof. intros Hc log. exists [c]. split; [reflexivity | repeat constructor; exact Hc]. Qed.

Lemma emits_bind {A B} (m : M A) (k : A -> M B) :
  emits Q m -> (forall a, emits Q (k a)) -> emits Q (bind m k).
Proof.
  intros Hm Hk log. unfold bind. destruct (Hm log) as (l1 & Hl1 & HQ1).
  destruct (m log) as [[a | e] log1]; simpl in Hl1; subst log1.
  - destruct (Hk a (log ++ l1)) as (l2 & Hl2 & HQ2).
    exists (l1 ++ l2). rewrite Hl2, app_assoc. split; [reflexivity |].
    apply Forall_app. split; assumption.
  - exists l1. split; [reflexivity | exact HQ1].
Qed.

Lemma emits_catch_ignore {A} (m : M A) : emits Q m -> emits Q (catch_ignore m).
Proof. intros Hm log. unfold catch_ignore. exact (Hm log). Qed.

Lemma emits_try_finally {A} (body : M A) (cleanup : M unit) :
  emits Q body -> emits Q cleanup -> emits Q (try_finally body cleanup).
Proof.
  intros Hb Hc log. unfold try_finally. destruct (Hb log) as (l1 & Hl1 & HQ1).
  destruct (body log) as [r log1]; simpl in Hl1; subst log1.
  destruct (Hc (log ++ l1)) as (l2 & Hl2 & HQ2).
  exists (l1 ++ l2).
  destruct (cleanup (log ++ l1)) as [[u | e] log2]; simpl in Hl2; subst log2; simpl;
    rewrite app_assoc; (split; [reflexivity | apply Forall_app; split; assumption]).
Qed.

Lemma emits_calls {A} (m : M A) : emits Q m -> Forall Q (calls m).
Proof.
  intros Hm. unfold calls, run. destruct (Hm []) as (l & -> & HQ). exact HQ.
Qed.

End EmitsFacts.

(** Steps through a computation built from the monad's combinators. *)
Ltac emits_step :=
  match goal with
  | |- Trace.emits _ (ret _) => apply emits_ret
  | |- Trace.emits _ (throw _) => apply emits_throw
  | |- Trace.emits _ (lift _) => apply emits_lift
  | |- Trace.emits _ (await _ _) => apply emits_await; reflexivity
  | |- Trace.emits _ (catch_ignore _) => apply emits_catch_ignore
  | |- Trace.emits _ (try_finally _ _) => apply emits_try_finally
  | |- Trace.emits _ (bind _ _) => apply emits_bind; [| intros ?]
  | |- Trace.emits _ (if ?b then _ else _) => destruct b
  | |- Trace.emits _ (match ?x with _ => _ end) => destruct x
  end.

Section Discipline.
Import Config Imap Spec Trace.
Variable env : gmap string string.
Variable imapflow : ImapFlowOptions -> ImapFlow.

Lemma read_operations_emit {A} (op : Operation A) :
  readsOnly op = true -> emits (fun c => mutates c = false) (perform env imapflow op).
Proof.
  destruct op; simpl; try discriminate; intros _;
    unfold listMailboxes, listEmails, fetchEmail, searchEmails, logout_quietly,
      listMailboxes_body, listEmails_body, fetchEmail_body, searchEmails_body,
      downloadText;
    cbv zeta; repeat emits_step.
Qed.

Lemma mailbox_failure {A} (op : Operation A) (cfg : ImapFlowOptions) (e : Error) :
  getImapConfig env = Ok cfg ->
  connect_ (imapflow cfg) = Ok tt ->
  (forall mailbox readOnly, mailboxOpen_ (imapflow cfg) mailbox readOnly = Throw e) ->
  Forall (fun c => needsMailbox c = false) (calls (perform env imapflow op)).
Proof.
  intros Hcfg Hc Ho. unfold calls. rewrite (perform_run env imapflow op cfg Hcfg).
  simpl. unfold calls, run.
  destruct op; simpl;
    unfold listMailboxes_body, listEmails_body, fetchEmail_body, searchEmails_body,
      moveEmail_body, deleteEmail_body, bind, await;
    rewrite Hc; simpl; rewrite ?Ho; simpl;
    try (destruct (list_ (imapflow cfg)); simpl);
    repeat constructor.
Qed.

End Discipline.

(** X8. Read operations never write.  Whatever the environment and however
    the server behaves, [listMailboxes], [listEmails], [fetchEmail] and
    [searchEmails] never call [messageMove] or [messageDelete] and never
    open a mailbox read-write, on any path. *)
Theorem read_operations_never_write (env : gmap string string)
    (imapflow : Config.ImapFlowOptions -> Imap.ImapFlow)
    (A : Type) (op : Spec.Operation A) :
  Trace.readsOnly op = true ->
  Forall (fun c => Trace.mutates c = false) (calls (Spec.perform env imapflow op)).
Proof.
  intros Hop. apply emits_calls.
  exact (read_operations_emit env imapflow op Hop).
Qed.

(** Fetching a message with two bodies: five read-only calls. *)
Lemma read_operations_never_write_witness :
  Forall (fun c => Trace.mutates c = false)
    (calls (Imap.fetchEmail Sample.env_defaults (fun _ => Examples.client_full) "INBOX" 42))
  /\ length (calls (Imap.fetchEmail Sample.env_defaults (fun _ => Examples.client_full)
                      "INBOX" 42)) = 6%nat.
Proof.
  split; [| vm_compute; reflexivity].
  exact (read_operations_never_write Sample.env_defaults (fun _ => Examples.client_full)
           _ (Spec.FetchEmail "INBOX" 42) eq_refl).
Defined.

(** X9. A failed connection ends the operation.  For each of the six
    operations, when [connect] is rejected the only calls made are [connect]
    and [logout], and the operation throws the connection error itself. *)
Theorem connect_failure_stops_operation (env : gmap string string)
    (imapflow : Config.ImapFlowOptions -> Imap.ImapFlow)
    (A : Type) (op : Spec.Operation A) (cfg : Config.ImapFlowOptions) (e : Error) :
  Config.getImapConfig env = Ok cfg ->
  Imap.connect_ (imapflow cfg) = Throw e ->
  run (Spec.perform env imapflow op) = (Throw e, [Connect; Logout]).
Proof.
  intros Hcfg Hc. rewrite (perform_run env imapflow op cfg Hcfg).
  unfold outcome, calls, run.
  destruct op; simpl;
    unfold Imap.listMailboxes_body, Imap.listEmails_body, Imap.fetchEmail_body,
      Imap.searchEmails_body, Imap.moveEmail_body, Imap.deleteEmail_body, bind, await;
    rewrite Hc; reflexivity.
Qed.

(** Deleting from a server that is down. *)
Lemma connect_failure_stops_operation_witness :
  run (Imap.deleteEmail Sample.env_defaults (fun _ => Sample.client_down) "INBOX" 42)
  = (Throw Sample.refused, [Connect; Logout]).
Proof.
  destruct (validated_has_client Sample.env_defaults eq_refl) as [cfg Hcfg].
  exact (connect_failure_stops_operation Sample.env_defaults (fun _ => Sample.client_down)
           _ (Spec.DeleteEmail "INBOX" 42) cfg Sample.refused Hcfg eq_refl).
Defined.

(** X10. A mailbox that cannot be opened is never acted on.  When the
    connection is up but the server rejects the opening of mailboxes, no
    operation fetches, downloads, searches, moves or deletes anything, and
    every operation other than [listMailboxes] throws the server's error. *)
Theorem mailbox_failure_stops_operation (env : gmap string string)
    (imapflow : Config.ImapFlowOptions -> Imap.ImapFlow)
    (A : Type) (op : Spec.Operation A) (cfg : Config.ImapFlowOptions) (e : Error) :
  Config.getImapConfig env = Ok cfg ->
  Imap.connect_ (imapflow cfg) = Ok tt ->
  (forall mailbox readOnly,
     Imap.mailboxOpen_ (imapflow cfg) mailbox readOnly = Throw e) ->
  Forall (fun c => Trace.needsMailbox c = false) (calls (Spec.perform env imapflow op))
  /\ match op with
     | Spec.ListMailboxes => True
     | _ => outcome (Spec.perform env imapflow op) = Throw e
     end.
Proof.
  intros Hcfg Hc Ho. split; [exact (mailbox_failure env imapflow op cfg e Hcfg Hc Ho) |].
  unfold outcome. rewrite (perform_run env imapflow op cfg Hcfg). simpl.
  unfold outcome, run.
  destruct op; simpl; [exact I | ..];
    unfold Imap.listEmails_body, Imap.fetchEmail_body, Imap.searchEmails_body,
      Imap.moveEmail_body, Imap.deleteEmail_body, bind, await;
    rewrite Hc; simpl; rewrite Ho; reflexivity.
Qed.

(** ** listMailboxes *)

(** X11. Listing mailboxes.  When the connection is up and the server
    lists its mailboxes, [listMailboxes] makes exactly the calls [connect],
    [list], [logout], and returns one descriptor per listed mailbox, in the
    server's order, with the same name, path, delimiter, flags and special
    use; no mailbox is opened. *)
Theorem listMailboxes_mirrors_server (env : gmap string string)
    (imapflow : Config.ImapFlowOptions -> Imap.ImapFlow) (cfg : Config.ImapFlowOptions)
    (list : list Imap.ListResponse) :
  Config.getImapConfig env = Ok cfg ->
  Imap.connect_ (imapflow cfg) = Ok tt ->
  Imap.list_ (imapflow cfg) = Ok list ->
  exists infos,
    run (Imap.listMailboxes env imapflow) = (Ok infos, [Connect; ListCall; Logout])
    /\ length infos = length list
    /\ forall i m, list !! i = Some m ->
         exists info, infos !! i = Some info /\
           Imap.mi_name info = Imap.lr_name m /\
           Imap.mi_path info = Imap.lr_path m /\
           Imap.mi_delimiter info = Imap.lr_delimiter m /\
           Imap.mi_flags info = Imap.lr_flags m /\
           Imap.mi_specialUse info = Imap.lr_specialUse m.
Proof.
  intros Hcfg Hc Hl.
  pose proof (perform_run env imapflow Spec.ListMailboxes cfg Hcfg) as Hp.
  simpl in Hp. unfold outcome, calls, run, Imap.listMailboxes_body, bind, await in Hp.
  rewrite Hc in Hp. simpl in Hp. rewrite Hl in Hp. simpl in Hp.
  eexists. split; [exact Hp |]. split; [apply length_map |].
  intros i m Hm. eexists. split; [rewrite list_lookup_fmap, Hm; reflexivity |].
  repeat split; reflexivity.
Qed.

(** Two mailboxes: the second one keeps its path and has no special use. *)
Lemma listMailboxes_mirrors_server_witness :
  exists infos,
    run (Imap.listMailboxes Sample.env_defaults (fun _ => Examples.client_full))
    = (Ok infos, [Connect; ListCall; Logout])
    /\ map Imap.mi_path infos = ["INBOX"; "Archive/2024"].
Proof.
  destruct (validated_has_client Sample.env_defaults eq_refl) as [cfg Hcfg].
  destruct (listMailboxes_mirrors_server Sample.env_defaults
              (fun _ => Examples.client_full) cfg [Examples.inbox; Examples.archive]
              Hcfg eq_refl eq_refl) as (infos & Hrun & Hlen & Hall).
  exists infos. split; [exact Hrun |].
  destruct (Hall 0%nat Examples.inbox eq_refl) as (i0 & H0 & _ & Hp0 & _).
  destruct (Hall 1%nat Examples.archive eq_refl) as (i1 & H1 & _ & Hp1 & _).
  destruct infos as [| a [| b [| c rest]]]; try discriminate Hlen.
  simpl in H0, H1. injection H0 as ->. injection H1 as ->.
  simpl. rewrite Hp0, Hp1. reflexivity.
Defined.

(** ** listEmails: consecutive pages *)

(** X12. Pages tile the mailbox.  For [N] messages and pages of [S >= 1]:
    whenever page [P + 1] is not beyond the data, page [P] fetches a full
    window of [S] sequence numbers and page [P + 1] fetches the window that
    ends right below it, so consecutive pages neither overlap nor leave a
    gap; page 1 ends at the newest message [N], and a page that is cut short
    starts at message 1. *)
Theorem listEmails_pages_tile (env : gmap string string)
    (imapflow : Config.ImapFlowOptions -> Imap.ImapFlow) (cfg : Config.ImapFlowOptions)
    (mailbox : string) (N P S : Z) :
  Config.getImapConfig env = Ok cfg ->
  Imap.connect_ (imapflow cfg) = Ok tt ->
  Imap.mailboxOpen_ (imapflow cfg) mailbox true = Ok {| Imap.mbox_exists := N |} ->
  1 <= P -> 1 <= S -> P * S < N ->
  exists start end_ start' end',
    calls (Imap.listEmails env imapflow mailbox P S)
    = [Connect; MailboxOpen mailbox true;
       FetchAll (Spec.sequenceRange (start, end_)) false; Logout]
    /\ calls (Imap.listEmails env imapflow mailbox (P + 1) S)
       = [Connect; MailboxOpen mailbox true;
          FetchAll (Spec.sequenceRange (start', end')) false; Logout]
    /\ end_ - start + 1 = S
    /\ end' = start - 1
    /\ 1 <= start' <= end'
    /\ (P = 1 -> end_ = N)
    /\ (end' - start' + 1 < S -> start' = 1).
Proof.
  intros Hcfg Hc Ho HP HS Hmore.
  pose proof (fun page =>
                perform_run env imapflow (Spec.ListEmails mailbox page S) cfg Hcfg) as Hp.
  simpl in Hp. unfold outcome, calls in Hp.
  pose proof (Hp P) as H1. pose proof (Hp (P + 1)) as H2. clear Hp.
  rewrite (listEmails_body_run _ mailbox P S _ Hc Ho) in H1.
  rewrite (listEmails_body_run _ mailbox (P + 1) S _ Hc Ho) in H2. simpl in H1, H2.
  assert (HN : (N =? 0) = false) by (apply Z.eqb_neq; nia).
  rewrite HN in H1, H2. simpl in H1, H2.
  assert (He1 : (N - (P - 1) * S <? 1) = false) by (apply Z.ltb_ge; nia).
  assert (He2 : (N - (P + 1 - 1) * S <? 1) = false) by (apply Z.ltb_ge; nia).
  rewrite He1 in H1. rewrite He2 in H2.
  exists (Z.max 1 (N - (P - 1) * S - S + 1)), (N - (P - 1) * S),
         (Z.max 1 (N - (P + 1 - 1) * S - S + 1)), (N - (P + 1 - 1) * S).
  unfold calls. rewrite H1, H2. simpl.
  repeat split; try reflexivity; try nia.
Qed.

(** 95 messages by 20, pages 1 and 2. *)
Lemma listEmails_pages_tile_witness :
  exists start end_ start' end',
    calls (Imap.listEmails Sample.env_defaults (fun _ => Sample.client_95) "INBOX" 1 20)
    = [Connect; MailboxOpen "INBOX" true;
       FetchAll (Spec.sequenceRange (start, end_)) false; Logout]
    /\ calls (Imap.listEmails Sample.env_defaults (fun _ => Sample.client_95)
                "INBOX" (1 + 1) 20)
       = [Connect; MailboxOpen "INBOX" true;
          FetchAll (Spec.sequenceRange (start', end')) false; Logout]
    /\ end_ - start + 1 = 20
    /\ end' = start - 1
    /\ 1 <= start' <= end'
    /\ (1 = 1 -> end_ = 95)
    /\ (end' - start' + 1 < 20 -> start' = 1).
Proof.
  destruct (validated_has_client Sample.env_defaults eq_refl) as [cfg Hcfg].
  exact (listEmails_pages_tile Sample.env_defaults (fun _ => Sample.client_95) cfg
           "INBOX" 95 1 20 Hcfg eq_refl eq_refl ltac:(lia) ltac:(lia) ltac:(lia)).
Defined.

(** ** findPart and fetchEmail *)

(** X13. What findPart returns is usable.  A part identifier answered by
    [findPart] is never the empty string, and it is the identifier of a node
    of the structure whose content type is the one searched for; so the
    tests [if (textPart)] and [if (htmlPart)] of [fetchEmail] hold exactly
    when a part was found. *)
Theorem findPart_result_is_a_part (tree : Imap.MessageStructureObject)
    (type part : string) :
  Imap.findPart (Some tree) type = Some part ->
  part <> ""
  /\ truthy_opt (Imap.findPart (Some tree) type) = true
  /\ exists node,
       In node (Spec.preorder tree) /\
       Imap.node_type node = type /\
       Imap.node_part node = Some part.
Proof.
  intros Hfind. assert (Hwalk := Hfind). simpl in Hwalk.
  rewrite find_walk_preorder in Hwalk. unfold Spec.firstPartOfType in Hwalk.
  destruct (List.find (Spec.isCandidate type) (Spec.preorder tree)) as [node |] eqn:Hn;
    [| discriminate Hwalk].
  simpl in Hwalk. apply find_some in Hn as [Hin Hc].
  unfold Spec.isCandidate in Hc. apply andb_true_iff in Hc as [Hty Hp].
  apply bool_decide_eq_true in Hty. rewrite Hwalk in Hp. simpl in Hp.
  assert (Hne : part <> "")
    by (intros ->; discriminate Hp).
  split; [exact Hne |]. split.
  - rewrite Hfind. apply truthy_opt_Some, Hne.
  - exists node. repeat split; assumption.
Qed.

(** In the sample message, "text/html" is found at part 1.1. *)
Lemma findPart_result_is_a_part_witness :
  Imap.findPart (Some Sample.mixed) "text/html" = Some "1.1"
  /\ exists node, In node (Spec.preorder Sample.mixed) /\
                  Imap.node_type node = "text/html" /\
                  Imap.node_part node = Some "1.1".
Proof.
  split; [reflexivity |].
  exact (proj2 (proj2 (findPart_result_is_a_part Sample.mixed "text/html" "1.1" eq_refl))).
Defined.

Section FetchEmailRuns.
Import Config Imap Spec.
Variable client : ImapFlow.
Variables (mailbox : string) (uid : Z) (mb : MailboxObject).
Hypothesis Hc : connect_ client = Ok tt.
Hypothesis Ho : mailboxOpen_ client mailbox true = Ok mb.

Lemma fetchEmail_body_not_found :
  fetchOne_ client (String_ uid) = Ok None ->
  run (fetchEmail_body client mailbox uid)
  = (Throw (mkError ("Message with UID " +:+ String_ uid +:+ " not found")),
     [Connect; MailboxOpen mailbox true; FetchOne (String_ uid)]).
Proof.
  intros Hf. unfold run, fetchEmail_body, bind, await.
  rewrite Hc. simpl. rewrite Ho. simpl. rewrite Hf. reflexivity.
Qed.

Lemma findPart_truthy (structure : option MessageStructureObject) (type part : string) :
  findPart structure type = Some part -> truthy_opt (Some part) = true.
Proof.
  destruct structure as [tree |]; [| discriminate].
  intros Hfind. apply truthy_opt_Some. intros ->.
  assert (Hwalk := Hfind). simpl in Hwalk.
  rewrite find_walk_preorder in Hwalk. unfold firstPartOfType in Hwalk.
  destruct (List.find (isCandidate type) (preorder tree)) as [node |] eqn:Hn;
    [| discriminate Hwalk].
  apply find_some in Hn as [_ Hcand]. unfold isCandidate in Hcand.
  apply andb_true_iff in Hcand as [_ Hp]. simpl in Hwalk. rewrite Hwalk in Hp.
  discriminate Hp.
Qed.

Lemma fetchEmail_body_two_bodies (msg : FetchMessageObject)
    (textPart htmlPart : string) (textChunks htmlChunks : list string) :
  fetchOne_ client (String_ uid) = Ok (Some msg) ->
  findPart (msg_bodyStructure msg) "text/plain" = Some textPart ->
  findPart (msg_bodyStructure msg) "text/html" = Some htmlPart ->
  download_ client (String_ uid) (Some textPart) = Ok textChunks ->
  download_ client (String_ uid) (Some htmlPart) = Ok htmlChunks ->
  exists r,
    run (fetchEmail_body client mailbox uid)
    = (Ok r, [Connect; MailboxOpen mailbox true; FetchOne (String_ uid);
              Download (String_ uid) (Some textPart);
              Download (String_ uid) (Some htmlPart)])
    /\ fe_textBody r = Some (concatChunks textChunks)
    /\ fe_htmlBody r = Some (concatChunks htmlChunks).
Proof.
  intros Hf Ht Hh Hdt Hdh. unfold run, fetchEmail_body, downloadText, bind, await, ret.
  rewrite Hc. simpl. rewrite Ho. simpl. rewrite Hf. simpl.
  rewrite Ht, Hh, (findPart_truthy _ _ _ Ht), (findPart_truthy _ _ _ Hh). simpl.
  rewrite Hdt. simpl. rewrite Hdh. simpl.
  eexists. repeat split; reflexivity.
Qed.

Lemma fetchEmail_body_text_download_fails (msg : FetchMessageObject)
    (textPart : string) (e : Error) :
  fetchOne_ client (String_ uid) = Ok (Some msg) ->
  findPart (msg_bodyStructure msg) "text/plain" = Some textPart ->
  download_ client (String_ uid) (Some textPart) = Throw e ->
  run (fetchEmail_body client mailbox uid)
  = (Throw e, [Connect; MailboxOpen mailbox true; FetchOne (String_ uid);
               Download (String_ uid) (Some textPart)]).
Proof.
  intros Hf Ht Hdt. unfold run, fetchEmail_body, downloadText, bind, await, ret.
  rewrite Hc. simpl. rewrite Ho. simpl. rewrite Hf. simpl.
  rewrite Ht, (findPart_truthy _ _ _ Ht). simpl. rewrite Hdt. reflexivity.
Qed.

Lemma fetchEmail_body_no_text_parts (msg : FetchMessageObject)
    (children : list MessageStructureObject) :
  fetchOne_ client (String_ uid) = Ok (Some msg) ->
  findPart (msg_bodyStructure msg) "text/plain" = None ->
  findPart (msg_bodyStructure msg) "text/html" = None ->
  msg_bodyStructure msg ≫= node_childNodes = Some children ->
  exists r,
    run (fetchEmail_body client mailbox uid)
    = (Ok r, [Connect; MailboxOpen mailbox true; FetchOne (String_ uid)])
    /\ fe_textBody r = None /\ fe_htmlBody r = None
    /\ fe_attachments r = collectAttachments (msg_bodyStructure msg).
Proof.
  intros Hf Ht Hh Hk. unfold run, fetchEmail_body, downloadText, bind, await, ret.
  rewrite Hc. simpl. rewrite Ho. simpl. rewrite Hf. simpl.
  rewrite Ht, Hh, Hk. simpl. eexists. repeat split; reflexivity.
Qed.

End FetchEmailRuns.

(** X14. An unknown UID.  When the server has no message for the UID,
    [fetchEmail] throws "Message with UID <uid> not found"; nothing is
    downloaded and the session is still logged out. *)
Theorem fetchEmail_unknown_uid (env : gmap string string)
    (imapflow : Config.ImapFlowOptions -> Imap.ImapFlow) (cfg : Config.ImapFlowOptions)
    (mailbox : string) (uid : Z) (mb : Imap.MailboxObject) :
  Config.getImapConfig env = Ok cfg ->
  Imap.connect_ (imapflow cfg) = Ok tt ->
  Imap.mailboxOpen_ (imapflow cfg) mailbox true = Ok mb ->
  Imap.fetchOne_ (imapflow cfg) (String_ uid) = Ok None ->
  run (Imap.fetchEmail env imapflow mailbox uid)
  = (Throw (mkError ("Message with UID " +:+ String_ uid +:+ " not found")),
     [Connect; MailboxOpen mailbox true; FetchOne (String_ uid); Logout]).
Proof.
  intros Hcfg Hc Ho Hf.
  pose proof (perform_run env imapflow (Spec.FetchEmail mailbox uid) cfg Hcfg) as Hp.
  simpl in Hp. rewrite Hp. unfold outcome, calls.
  rewrite (fetchEmail_body_not_found _ mailbox uid mb Hc Ho Hf). reflexivity.
Qed.

(** UID 7 does not exist. *)
Lemma fetchEmail_unknown_uid_witness :
  run (Imap.fetchEmail Sample.env_defaults (fun _ => Examples.client_full) "INBOX" 7)
  = (Throw (mkError "Message with UID 7 not found"),
     [Connect; MailboxOpen "INBOX" true; FetchOne "7"; Logout]).
Proof.
  destruct (validated_has_client Sample.env_defaults eq_refl) as [cfg Hcfg].
  exact (fetchEmail_unknown_uid Sample.env_defaults (fun _ => Examples.client_full) cfg
           "INBOX" 7 {| Imap.mbox_exists := 2 |} Hcfg eq_refl eq_refl eq_refl).
Defined.

(** X15. Both bodies, independently.  When the structure has a text/plain
    part and a text/html part, [fetchEmail] downloads exactly those two
    parts, the plain one first, never the whole message, and returns the
    text of each in its own field. *)
Theorem fetchEmail_two_bodies (env : gmap string string)
    (imapflow : Config.ImapFlowOptions -> Imap.ImapFlow) (cfg : Config.ImapFlowOptions)
    (mailbox : string) (uid : Z) (mb : Imap.MailboxObject)
    (msg : Imap.FetchMessageObject) (textPart htmlPart : string)
    (textChunks htmlChunks : list string) :
  Config.getImapConfig env = Ok cfg ->
  Imap.connect_ (imapflow cfg) = Ok tt ->
  Imap.mailboxOpen_ (imapflow cfg) mailbox true = Ok mb ->
  Imap.fetchOne_ (imapflow cfg) (String_ uid) = Ok (Some msg) ->
  Imap.findPart (Imap.msg_bodyStructure msg) "text/plain" = Some textPart ->
  Imap.findPart (Imap.msg_bodyStructure msg) "text/html" = Some htmlPart ->
  Imap.download_ (imapflow cfg) (String_ uid) (Some textPart) = Ok textChunks ->
  Imap.download_ (imapflow cfg) (String_ uid) (Some htmlPart) = Ok htmlChunks ->
  exists r,
    run (Imap.fetchEmail env imapflow mailbox uid)
    = (Ok r, [Connect; MailboxOpen mailbox true; FetchOne (String_ uid);
              Download (String_ uid) (Some textPart);
              Download (String_ uid) (Some htmlPart); Logout])
    /\ Imap.fe_textBody r = Some (Imap.concatChunks textChunks)
    /\ Imap.fe_htmlBody r = Some (Imap.concatChunks htmlChunks).
Proof.
  intros Hcfg Hc Ho Hf Ht Hh Hdt Hdh.
  destruct (fetchEmail_body_two_bodies _ mailbox uid mb Hc Ho msg textPart htmlPart
              textChunks htmlChunks Hf Ht Hh Hdt Hdh) as (r & Hrun & Htext & Hhtml).
  exists r. split; [| split; assumption].
  pose proof (perform_run env imapflow (Spec.FetchEmail mailbox uid) cfg Hcfg) as Hp.
  simpl in Hp. rewrite Hp. unfold outcome, calls. rewrite Hrun. reflexivity.
Qed.

(** A multipart/alternative message: the plain body arrives in two chunks. *)
Lemma fetchEmail_two_bodies_witness :
  exists r,
    run (Imap.fetchEmail Sample.env_defaults (fun _ => Examples.client_full) "INBOX" 42)
    = (Ok r, [Connect; MailboxOpen "INBOX" true; FetchOne "42";
              Download "42" (Some "1"); Download "42" (Some "2"); Logout])
    /\ Imap.fe_textBody r = Some "Hello"
    /\ Imap.fe_htmlBody r = Some "<p>Hello</p>".
Proof.
  destruct (validated_has_client Sample.env_defaults eq_refl) as [cfg Hcfg].
  exact (fetchEmail_two_bodies Sample.env_defaults (fun _ => Examples.client_full) cfg
           "INBOX" 42 {| Imap.mbox_exists := 2 |} Examples.two_bodies "1" "2"
           ["Hel"; "lo"] ["<p>Hello</p>"]
           Hcfg eq_refl eq_refl eq_refl eq_refl eq_refl eq_refl eq_refl).
Defined.

(** X16. No partial detail.  When the download of the text/plain part is
    rejected, [fetchEmail] throws that error: the HTML part is not
    downloaded and no detail is returned. *)
Theorem fetchEmail_download_failure (env : gmap string string)
    (imapflow : Config.ImapFlowOptions -> Imap.ImapFlow) (cfg : Config.ImapFlowOptions)
    (mailbox : string) (uid : Z) (mb : Imap.MailboxObject)
    (msg : Imap.FetchMessageObject) (textPart : string) (e : Error) :
  Config.getImapConfig env = Ok cfg ->
  Imap.connect_ (imapflow cfg) = Ok tt ->
  Imap.mailboxOpen_ (imapflow cfg) mailbox true = Ok mb ->
  Imap.fetchOne_ (imapflow cfg) (String_ uid) = Ok (Some msg) ->
  Imap.findPart (Imap.msg_bodyStructure msg) "text/plain" = Some textPart ->
  Imap.download_ (imapflow cfg) (String_ uid) (Some textPart) = Throw e ->
  run (Imap.fetchEmail env imapflow mailbox uid)
  = (Throw e, [Connect; MailboxOpen mailbox true; FetchOne (String_ uid);
               Download (String_ uid) (Some textPart); Logout]).
Proof.
  intros Hcfg Hc Ho Hf Ht Hdt.
  pose proof (perform_run env imapflow (Spec.FetchEmail mailbox uid) cfg Hcfg) as Hp.
  simpl in Hp. rewrite Hp. unfold outcome, calls.
  rewrite (fetchEmail_body_text_download_fails _ mailbox uid mb Hc Ho msg textPart e
             Hf Ht Hdt).
  reflexivity.
Qed.

(** X17. A multipart without text.  When the structure has child parts but
    neither a text/plain nor a text/html part, [fetchEmail] downloads
    nothing: both bodies are unset and the attachments are still listed. *)
Theorem fetchEmail_multipart_without_text (env : gmap string string)
    (imapflow : Config.ImapFlowOptions -> Imap.ImapFlow) (cfg : Config.ImapFlowOptions)
    (mailbox : string) (uid : Z) (mb : Imap.MailboxObject)
    (msg : Imap.FetchMessageObject) (children : list Imap.MessageStructureObject) :
  Config.getImapConfig env = Ok cfg ->
  Imap.connect_ (imapflow cfg) = Ok tt ->
  Imap.mailboxOpen_ (imapflow cfg) mailbox true = Ok mb ->
  Imap.fetchOne_ (imapflow cfg) (String_ uid) = Ok (Some msg) ->
  Imap.findPart (Imap.msg_bodyStructure msg) "text/plain" = None ->
  Imap.findPart (Imap.msg_bodyStructure msg) "text/html" = None ->
  Imap.msg_bodyStructure msg ≫= Imap.node_childNodes = Some children ->
  exists r,
    run (Imap.fetchEmail env imapflow mailbox uid)
    = (Ok r, [Connect; MailboxOpen mailbox true; FetchOne (String_ uid); Logout])
    /\ Imap.fe_textBody r = None /\ Imap.fe_htmlBody r = None
    /\ Imap.fe_attachments r = Imap.collectAttachments (Imap.msg_bodyStructure msg).
Proof.
  intros Hcfg Hc Ho Hf Ht Hh Hk.
  destruct (fetchEmail_body_no_text_parts _ mailbox uid mb Hc Ho msg children Hf Ht Hh Hk)
    as (r & Hrun & Hrest).
  exists r. split; [| exact Hrest].
  pose proof (perform_run env imapflow (Spec.FetchEmail mailbox uid) cfg Hcfg) as Hp.
  simpl in Hp. rewrite Hp. unfold outcome, calls. rewrite Hrun. reflexivity.
Qed.

(** A message whose only part is a PDF: no body, one attachment. *)
Lemma fetchEmail_multipart_without_text_witness :
  exists r,
    run (Imap.fetchEmail Sample.env_defaults (fun _ => Examples.client_full) "INBOX" 43)
    = (Ok r, [Connect; MailboxOpen "INBOX" true; FetchOne "43"; Logout])
    /\ Imap.fe_textBody r = None /\ Imap.fe_htmlBody r = None
    /\ map Imap.att_filename (Imap.fe_attachments r) = [Some "report.pdf"].
Proof.
  destruct (validated_has_client Sample.env_defaults eq_refl) as [cfg Hcfg].
  destruct (fetchEmail_multipart_without_text Sample.env_defaults
              (fun _ => Examples.client_full) cfg "INBOX" 43 {| Imap.mbox_exists := 2 |}
              Examples.pdf_only _ Hcfg eq_refl eq_refl eq_refl eq_refl eq_refl eq_refl)
    as (r & Hrun & Ht & Hh & Ha).
  exists r. repeat split; try assumption. rewrite Ha. vm_compute. reflexivity.
Defined.

(** A plain part that cannot be downloaded. *)
Lemma fetchEmail_download_failure_witness :
  run (Imap.fetchEmail Sample.env_defaults (fun _ => Examples.client_no_download)
         "INBOX" 42)
  = (Throw (mkError "Command failed"),
     [Connect; MailboxOpen "INBOX" true; FetchOne "42"; Download "42" (Some "1"); Logout]).
Proof.
  destruct (validated_has_client Sample.env_defaults eq_refl) as [cfg Hcfg].
  exact (fetchEmail_download_failure Sample.env_defaults
           (fun _ => Examples.client_no_download) cfg "INBOX" 42
           {| Imap.mbox_exists := 2 |} Examples.two_bodies "1" (mkError "Command failed")
           Hcfg eq_refl eq_refl eq_refl eq_refl eq_refl).
Defined.

(** ** searchEmails *)

Section SearchRuns.
Import Config Imap Spec.

Lemma searchEmails_body_no_match (client : ImapFlow) (mailbox : string)
    (criteria : SearchCriteria) (limit : Z) (mb : MailboxObject)
    (answer : option (list Z)) :
  connect_ client = Ok tt ->
  mailboxOpen_ client mailbox true = Ok mb ->
  search_ client (buildQuery criteria) = Ok answer ->
  answer = None \/ answer = Some [] ->
  run (searchEmails_body client mailbox criteria limit)
  = (Ok [], [Connect; MailboxOpen mailbox true; Search (buildQuery criteria)]).
Proof.
  intros Hc Ho Hs Hnone. unfold run, searchEmails_body, bind, await.
  rewrite Hc. simpl. rewrite Ho. simpl. rewrite Hs. simpl.
  destruct Hnone as [-> | ->]; reflexivity.
Qed.

Lemma slice_from_all {A} (limit : Z) (l : list A) :
  limit = 0 \/ Z.of_nat (length l) <= limit -> slice_from (- limit) l = l.
Proof.
  intros Hl. unfold slice_from.
  destruct (Z.ltb_spec (- limit) 0) as [Hneg | Hpos].
  - replace (Z.to_nat (Z.max (Z.of_nat (length l) + - limit) 0)) with 0%nat by lia.
    reflexivity.
  - replace (Z.to_nat (Z.min (- limit) (Z.of_nat (length l)))) with 0%nat by lia.
    reflexivity.
Qed.

Lemma slice_from_negative_limit {A} (k : Z) (l : list A) :
  0 < k -> slice_from (- (- k)) l = drop (Z.to_nat k) l.
Proof.
  intros Hk. unfold slice_from. rewrite Z.opp_involutive.
  destruct (Z.ltb_spec k 0) as [Hneg | _]; [lia |].
  destruct (Z.le_ge_cases k (Z.of_nat (length l))) as [Hle | Hge].
  - rewrite Z.min_l by exact Hle. reflexivity.
  - rewrite Z.min_r by exact Hge. rewrite Nat2Z.id.
    rewrite !drop_ge by lia. reflexivity.
Qed.

End SearchRuns.

(** X18. No match, no fetch.  When the search answers with no UID (an empty
    list, or nothing at all), [searchEmails] returns the empty list and makes
    no fetch: the calls are [connect], [mailboxOpen], [search], [logout]. *)
Theorem searchEmails_no_match (env : gmap string string)
    (imapflow : Config.ImapFlowOptions -> Imap.ImapFlow) (cfg : Config.ImapFlowOptions)
    (mailbox : string) (criteria : Imap.SearchCriteria) (limit : Z)
    (mb : Imap.MailboxObject) (answer : option (list Z)) :
  Config.getImapConfig env = Ok cfg ->
  Imap.connect_ (imapflow cfg) = Ok tt ->
  Imap.mailboxOpen_ (imapflow cfg) mailbox true = Ok mb ->
  Imap.search_ (imapflow cfg) (Imap.buildQuery criteria) = Ok answer ->
  answer = None \/ answer = Some [] ->
  run (Imap.searchEmails env imapflow mailbox criteria limit)
  = (Ok [], [Connect; MailboxOpen mailbox true; Search (Imap.buildQuery criteria); Logout]).
Proof.
  intros Hcfg Hc Ho Hs Hnone.
  pose proof (perform_run env imapflow (Spec.SearchEmails mailbox criteria limit)
                cfg Hcfg) as Hp.
  simpl in Hp. rewrite Hp. unfold outcome, calls.
  rewrite (searchEmails_body_no_match _ mailbox criteria limit mb answer Hc Ho Hs Hnone).
  reflexivity.
Qed.

(** A search that matches nothing. *)
Lemma searchEmails_no_match_witness :
  run (Imap.searchEmails Sample.env_defaults (fun _ => Examples.client_full) "INBOX"
         Sample.no_criteria 50)
  = (Ok [], [Connect; MailboxOpen "INBOX" true;
             Search (Imap.buildQuery Sample.no_criteria); Logout]).
Proof.
  destruct (validated_has_client Sample.env_defaults eq_refl) as [cfg Hcfg].
  exact (searchEmails_no_match Sample.env_defaults (fun _ => Examples.client_full) cfg
           "INBOX" Sample.no_criteria 50 {| Imap.mbox_exists := 2 |} (Some [])
           Hcfg eq_refl eq_refl eq_refl (or_intror eq_refl)).
Defined.

(** X19. The query that is sent.  A text criterion reaches the server only
    when it is a non-empty string: an empty string is dropped like an absent
    one, so the query never holds an empty text.  [seen] is passed whenever
    it is defined, [false] included. *)
Theorem buildQuery_drops_empty_texts (criteria : Imap.SearchCriteria) :
  Forall (fun field => field <> Some "")
    [q_from (Imap.buildQuery criteria); q_to (Imap.buildQuery criteria);
     q_subject (Imap.buildQuery criteria); q_since (Imap.buildQuery criteria);
     q_before (Imap.buildQuery criteria); q_body (Imap.buildQuery criteria)]
  /\ Forall2 (fun sent given => sent = given \/ (sent = None /\ given = Some ""))
       [q_from (Imap.buildQuery criteria); q_to (Imap.buildQuery criteria);
        q_subject (Imap.buildQuery criteria); q_since (Imap.buildQuery criteria);
        q_before (Imap.buildQuery criteria); q_body (Imap.buildQuery criteria)]
       [Imap.sc_from criteria; Imap.sc_to criteria; Imap.sc_subject criteria;
        Imap.sc_since criteria; Imap.sc_before criteria; Imap.sc_body criteria]
  /\ q_seen (Imap.buildQuery criteria) = Imap.sc_seen criteria
  /\ Imap.buildQuery Examples.unread_only
     = {| q_from := None; q_to := None; q_subject := None; q_since := None;
          q_before := None; q_body := None; q_seen := Some false |}.
Proof.
  assert (Hkeep : forall v : option string,
            (if truthy_opt v then v else None) <> Some "" /\
            ((if truthy_opt v then v else None) = v \/
             ((if truthy_opt v then v else None) = None /\ v = Some ""))).
  { intros [s' |]; simpl; [| split; [discriminate | left; reflexivity]].
    unfold truthy. destruct (String.eqb_spec s' "") as [-> | Hs']; simpl.
    - split; [discriminate | right; split; reflexivity].
    - split; [intros [= H]; contradiction | left; reflexivity]. }
  split; [| split; [| split; reflexivity]].
  - repeat (constructor; [apply Hkeep |]). constructor.
  - repeat (constructor; [apply Hkeep |]). constructor.
Qed.

(** X20. The limit at its edges.  With at least one match: a [limit] of 0,
    or one that reaches the number of matches, keeps every match (0 is not
    "no result": [slice(-0)] is the whole array); a negative [limit] drops
    the [-limit] oldest matches and keeps the rest.  In each case the fetch
    is for the kept UIDs. *)
Theorem searchEmails_limit_edges (env : gmap string string)
    (imapflow : Config.ImapFlowOptions -> Imap.ImapFlow) (cfg : Config.ImapFlowOptions)
    (mailbox : string) (criteria : Imap.SearchCriteria) (limit : Z)
    (mb : Imap.MailboxObject) (uids : list Z) :
  Config.getImapConfig env = Ok cfg ->
  Imap.connect_ (imapflow cfg) = Ok tt ->
  Imap.mailboxOpen_ (imapflow cfg) mailbox true = Ok mb ->
  Imap.search_ (imapflow cfg) (Imap.buildQuery criteria) = Ok (Some uids) ->
  uids <> [] ->
  (limit = 0 \/ Z.of_nat (length uids) <= limit ->
   calls (Imap.searchEmails env imapflow mailbox criteria limit)
   = [Connect; MailboxOpen mailbox true; Search (Imap.buildQuery criteria);
      FetchAll (Spec.uidSet uids) true; Logout])
  /\ (limit < 0 ->
      calls (Imap.searchEmails env imapflow mailbox criteria limit)
      = [Connect; MailboxOpen mailbox true; Search (Imap.buildQuery criteria);
         FetchAll (Spec.uidSet (drop (Z.to_nat (- limit)) uids)) true; Logout]).
Proof.
  intros Hcfg Hc Ho Hs Hne.
  pose proof (perform_run env imapflow (Spec.SearchEmails mailbox criteria limit)
                cfg Hcfg) as Hp.
  simpl in Hp. unfold outcome, calls in Hp.
  rewrite (searchEmails_body_run _ mailbox criteria limit mb uids Hc Ho Hs Hne) in Hp.
  simpl in Hp. unfold calls. rewrite Hp. simpl. split.
  - intros Hl. rewrite (slice_from_all limit uids Hl). reflexivity.
  - intros Hl. replace limit with (- (- limit)) at 1 by lia.
    rewrite (slice_from_negative_limit (- limit) uids ltac:(lia)). reflexivity.
Qed.

(** 120 matches and a limit of 0: all 120 UIDs are asked for. *)
Lemma searchEmails_limit_edges_witness :
  calls (Imap.searchEmails Sample.env_defaults (fun _ => Sample.client_search) "INBOX"
           Sample.no_criteria 0)
  = [Connect; MailboxOpen "INBOX" true; Search (Imap.buildQuery Sample.no_criteria);
     FetchAll (Spec.uidSet (seqZ 101 120)) true; Logout].
Proof.
  destruct (validated_has_client Sample.env_defaults eq_refl) as [cfg Hcfg].
  exact (proj1 (searchEmails_limit_edges Sample.env_defaults
                  (fun _ => Sample.client_search) cfg "INBOX" Sample.no_criteria 0
                  {| Imap.mbox_exists := 500 |} (seqZ 101 120)
                  Hcfg eq_refl eq_refl eq_refl ltac:(discriminate))
               (or_introl eq_refl)).
Defined.

(** ** moveEmail and deleteEmail *)

(** X21. Moving a message.  With the source mailbox open read-write:
    when the server reports that nothing was moved, [moveEmail] throws
    "Failed to move message UID <uid> to <destination>"; when it reports a
    move, the operation succeeds and echoes the UID and both mailboxes, and
    [newUid] is the entry of the UID map for this UID, absent when the server
    sent no map or a map without this UID.  In both cases the calls are
    [connect], [mailboxOpen], [messageMove], [logout]. *)
Theorem moveEmail_outcomes (env : gmap string string)
    (imapflow : Config.ImapFlowOptions -> Imap.ImapFlow) (cfg : Config.ImapFlowOptions)
    (mailbox : string) (uid : Z) (destination : string) (mb : Imap.MailboxObject)
    (answer : option Imap.CopyResponseObject) :
  Config.getImapConfig env = Ok cfg ->
  Imap.connect_ (imapflow cfg) = Ok tt ->
  Imap.mailboxOpen_ (imapflow cfg) mailbox false = Ok mb ->
  Imap.messageMove_ (imapflow cfg) (String_ uid) destination = Ok answer ->
  calls (Imap.moveEmail env imapflow mailbox uid destination)
  = [Connect; MailboxOpen mailbox false; MessageMove (String_ uid) destination; Logout]
  /\ outcome (Imap.moveEmail env imapflow mailbox uid destination)
     = match answer with
       | None =>
           Throw (mkError ("Failed to move message UID " +:+ String_ uid
                             +:+ " to " +:+ destination))
       | Some response =>
           Ok {| Imap.mv_uid := uid; Imap.mv_from := mailbox;
                 Imap.mv_to := destination;
                 Imap.mv_newUid := Imap.copy_uidMap response ≫= (.!! uid) |}
       end.
Proof.
  intros Hcfg Hc Ho Hm.
  pose proof (perform_run env imapflow (Spec.MoveEmail mailbox uid destination)
                cfg Hcfg) as Hp.
  simpl in Hp. unfold outcome, calls, run, Imap.moveEmail_body, bind, await in Hp.
  rewrite Hc in Hp. simpl in Hp. rewrite Ho in Hp. simpl in Hp.
  rewrite Hm in Hp. simpl in Hp.
  unfold calls, outcome, run. rewrite Hp.
  destruct answer as [[[uidMap |]] |]; simpl; split; reflexivity.
Qed.

(** UID 42 becomes UID 7; UID 43 moves without a UID map; UID 44 does not
    move. *)
Lemma moveEmail_outcomes_witness :
  outcome (Imap.moveEmail Sample.env_defaults (fun _ => Examples.client_full)
             "INBOX" 42 "Archive")
  = Ok {| Imap.mv_uid := 42; Imap.mv_from := "INBOX"; Imap.mv_to := "Archive";
          Imap.mv_newUid := Some 7 |}
  /\ outcome (Imap.moveEmail Sample.env_defaults (fun _ => Examples.client_full)
                "INBOX" 43 "Archive")
     = Ok {| Imap.mv_uid := 43; Imap.mv_from := "INBOX"; Imap.mv_to := "Archive";
             Imap.mv_newUid := None |}
  /\ outcome (Imap.moveEmail Sample.env_defaults (fun _ => Examples.client_full)
                "INBOX" 44 "Archive")
     = Throw (mkError "Failed to move message UID 44 to Archive").
Proof.
  destruct (validated_has_client Sample.env_defaults eq_refl) as [cfg Hcfg].
  pose proof (fun uid answer H =>
                proj2 (moveEmail_outcomes Sample.env_defaults
                         (fun _ => Examples.client_full) cfg "INBOX" uid "Archive"
                         {| Imap.mbox_exists := 2 |} answer Hcfg eq_refl eq_refl H))
    as Hmove.
  split; [| split].
  - exact (Hmove 42 (Some {| Imap.copy_uidMap := Some {[ 42 := 7 ]} |}) eq_refl).
  - exact (Hmove 43 (Some {| Imap.copy_uidMap := None |}) eq_refl).
  - exact (Hmove 44 None eq_refl).
Defined.

(** X22. Deleting a message.  With the mailbox open read-write,
    [deleteEmail] reports the server's answer as it is: an answer of [false]
    is returned as [deleted: false], not thrown.  The calls are [connect],
    [mailboxOpen] (read-write), [messageDelete] for that UID, [logout]; when
    [messageDelete] is rejected, its error is thrown. *)
Theorem deleteEmail_reports_answer (env : gmap string string)
    (imapflow : Config.ImapFlowOptions -> Imap.ImapFlow) (cfg : Config.ImapFlowOptions)
    (mailbox : string) (uid : Z) (mb : Imap.MailboxObject) (answer : result bool) :
  Config.getImapConfig env = Ok cfg ->
  Imap.connect_ (imapflow cfg) = Ok tt ->
  Imap.mailboxOpen_ (imapflow cfg) mailbox false = Ok mb ->
  Imap.messageDelete_ (imapflow cfg) (String_ uid) = answer ->
  run (Imap.deleteEmail env imapflow mailbox uid)
  = (match answer with
     | Ok deleted => Ok {| Imap.del_uid := uid; Imap.del_mailbox := mailbox;
                           Imap.del_deleted := deleted |}
     | Throw e => Throw e
     end,
     [Connect; MailboxOpen mailbox false; MessageDelete (String_ uid); Logout]).
Proof.
  intros Hcfg Hc Ho Hd.
  pose proof (perform_run env imapflow (Spec.DeleteEmail mailbox uid) cfg Hcfg) as Hp.
  simpl in Hp. unfold outcome, calls, run, Imap.deleteEmail_body, bind, await in Hp.
  rewrite Hc in Hp. simpl in Hp. rewrite Ho in Hp. simpl in Hp. rewrite Hd in Hp.
  unfold run. rewrite Hp. destruct answer; reflexivity.
Qed.

(** A delete the server does not confirm. *)
Lemma deleteEmail_reports_answer_witness :
  run (Imap.deleteEmail Sample.env_defaults (fun _ => Examples.client_no_download)
         "Trash" 42)
  = (Ok {| Imap.del_uid := 42; Imap.del_mailbox := "Trash"; Imap.del_deleted := false |},
     [Connect; MailboxOpen "Trash" false; MessageDelete "42"; Logout]).
Proof.
  destruct (validated_has_client Sample.env_defaults eq_refl) as [cfg Hcfg].
  exact (deleteEmail_reports_answer Sample.env_defaults
           (fun _ => Examples.client_no_download) cfg "Trash" 42
           {| Imap.mbox_exists := 2 |} (Ok false) Hcfg eq_refl eq_refl eq_refl).
Defined.

(** ** Address formatting *)

Section AddressFacts.
Import Imap Spec Display.

Lemma append_nonempty (a b : string) : a <> "" -> a +:+ b <> "".
Proof. destruct a; [contradiction | discriminate]. Qed.

Lemma formatAddress_rendered (a : MessageAddressObject) :
  match formatAddress (Some a) with
  | Some s => if truthy s then Some s else None
  | None => None
  end
  = if shown a then Some (rendered a) else None.
Proof.
  unfold formatAddress, shown, rendered.
  destruct a as [[name |] [address |]]; simpl; unfold truthy;
    try destruct (String.eqb_spec name "") as [-> | Hn]; simpl;
    try destruct (String.eqb_spec address "") as [-> | Ha]; simpl;
    try reflexivity;
    match goal with
    | |- context [String.eqb ?x ""] =>
        destruct (String.eqb_spec x "") as [He | _];
        [exfalso; exact (append_nonempty _ _ Hn He) | reflexivity]
    end.
Qed.

Lemma rendered_nonempty (a : MessageAddressObject) : shown a = true -> rendered a <> "".
Proof.
  unfold shown, rendered.
  destruct a as [[name |] [address |]]; simpl;
    try destruct (String.eqb_spec name "") as [-> | Hn]; simpl;
    try destruct (String.eqb_spec address "") as [-> | Ha]; simpl;
    try discriminate; try (intros _; assumption);
    intros _; apply append_nonempty; assumption.
Qed.

Lemma omap_rendered (l : list MessageAddressObject) :
  omap (fun a => match formatAddress (Some a) with
                 | Some s => if truthy s then Some s else None
                 | None => None
                 end) l
  = map rendered (List.filter shown l).
Proof.
  induction l as [| a l IH]; [reflexivity |].
  cbn [omap list_omap List.filter]. rewrite formatAddress_rendered.
  destruct (shown a); simpl; rewrite <- IH; reflexivity.
Qed.

End AddressFacts.

(** X23. Formatted addresses.  [formatAddresses] answers nothing for a
    missing or empty list.  Otherwise it lists, in order, the addresses that
    have a non-empty name or a non-empty address, each as "name <address>"
    when it has a name and as the bare address when it has none; an address
    with neither is left out, one with a name only reads
    "name <undefined>", and no entry is ever the empty string. *)
Theorem formatAddresses_entries (addrs : option (list Imap.MessageAddressObject)) :
  (Imap.formatAddresses addrs = None <-> addrs = None \/ addrs = Some [])
  /\ (forall l, addrs = Some l -> l <> [] ->
        Imap.formatAddresses addrs
        = Some (map Display.rendered (List.filter Display.shown l))
        /\ Forall (fun s => s <> "")
                  (map Display.rendered (List.filter Display.shown l)))
  /\ Imap.formatAddresses (Some Examples.correspondents)
     = Some ["Jane <jane@x.com>"; "joe@x.com"; "Undisclosed <undefined>"].
Proof.
  split; [| split; [| vm_compute; reflexivity]].
  - destruct addrs as [[| a l] |]; simpl.
    + split; [right | ]; reflexivity.
    + split; [discriminate | intros [H | H]; discriminate H].
    + split; [left |]; reflexivity.
  - intros l -> Hl. destruct l as [| a l]; [contradiction |].
    unfold Imap.formatAddresses. rewrite omap_rendered. split; [reflexivity |].
    rewrite Forall_map, Forall_forall. intros b Hb. apply rendered_nonempty.
    apply list_elem_of_In, filter_In in Hb as [_ Hs]. exact Hs.
Qed.

(** ** sendEmail *)

Section SendEmailFacts.
Import Config Smtp.

Lemma sendEmail_run (env : gmap string string) (nodemailer : SmtpOptions -> Transporter)
    (to : Recipients) (subject body : string) (options : SendEmailOptions)
    (cfg : SmtpOptions) (from : string) :
  getSmtpConfig env = Ok cfg ->
  env !! "EMAIL_ADDRESS" = Some from -> from <> "" ->
  sendEmail env nodemailer to subject body options
  = (match sendMail_ (nodemailer cfg) (composeMessage from to subject body options) with
     | Ok info => Ok {| sent_messageId := info_messageId info;
                        sent_accepted := info_accepted info;
                        sent_rejected := info_rejected info |}
     | Throw e => Throw e
     end,
     [SendMail (composeMessage from to subject body options); Close]).
Proof.
  intros Hcfg Hfrom Hne. unfold sendEmail.
  rewrite Hcfg, Hfrom, (truthy_opt_Some from Hne). reflexivity.
Qed.

End SendEmailFacts.

(** X24. One send, always released.  With the relay configured and a sender
    address, [sendEmail] calls [sendMail] once and then [close], whether the
    relay accepted or rejected the message.  A rejection is thrown as it is;
    an acceptance is returned with the relay's message id and its lists of
    accepted and rejected recipients, so a partly rejected send is a normal
    result. *)
Theorem sendEmail_sends_once_and_closes (env : gmap string string)
    (nodemailer : Config.SmtpOptions -> Smtp.Transporter)
    (to : Smtp.Recipients) (subject body : string) (options : Smtp.SendEmailOptions)
    (cfg : Config.SmtpOptions) (from : string) :
  Config.getSmtpConfig env = Ok cfg ->
  env !! "EMAIL_ADDRESS" = Some from -> from <> "" ->
  exists message,
    snd (Smtp.sendEmail env nodemailer to subject body options)
    = [Smtp.SendMail message; Smtp.Close]
    /\ (forall e, Smtp.sendMail_ (nodemailer cfg) message = Throw e ->
                  fst (Smtp.sendEmail env nodemailer to subject body options) = Throw e)
    /\ (forall info, Smtp.sendMail_ (nodemailer cfg) message = Ok info ->
          fst (Smtp.sendEmail env nodemailer to subject body options)
          = Ok {| Smtp.sent_messageId := Smtp.info_messageId info;
                  Smtp.sent_accepted := Smtp.info_accepted info;
                  Smtp.sent_rejected := Smtp.info_rejected info |}).
Proof.
  intros Hcfg Hfrom Hne.
  rewrite (sendEmail_run env nodemailer to subject body options cfg from Hcfg Hfrom Hne).
  eexists. split; [reflexivity |]. simpl. split.
  - intros e ->. reflexivity.
  - intros info ->. reflexivity.
Qed.

(** A relay that rejects the message: the error is thrown after [close]. *)
Lemma sendEmail_sends_once_and_closes_witness :
  exists message,
    Smtp.sendEmail Sample.env_defaults (fun _ => Examples.relay_rejecting)
      (Smtp.One "joe@x.com") "Hi" "Hello" Examples.plain_options
    = (Throw (mkError "550 Mailbox unavailable"), [Smtp.SendMail message; Smtp.Close]).
Proof.
  destruct (Config.getSmtpConfig Sample.env_defaults) as [cfg | e] eqn:Hcfg;
    [| vm_compute in Hcfg; discriminate Hcfg].
  destruct (sendEmail_sends_once_and_closes Sample.env_defaults
              (fun _ => Examples.relay_rejecting) (Smtp.One "joe@x.com") "Hi" "Hello"
              Examples.plain_options cfg "jane@example.org" Hcfg eq_refl
              ltac:(discriminate)) as (message & Hcalls & Hthrow & _).
  exists message. rewrite <- Hcalls, <- (Hthrow _ eq_refl).
  apply surjective_pairing.
Defined.



(** X26. What sendEmail needs before it sends.  [sendEmail] leaves the
    relay untouched (no [sendMail], no [close]) exactly when [SMTP_HOST] or
    [EMAIL_ADDRESS] is unset or empty.  The host is checked first: without
    it the error is "SMTP_HOST is required", and with it but without a sender
    address the error is "EMAIL_ADDRESS is required". *)
Theorem sendEmail_requires_configuration (env : gmap string string)
    (nodemailer : Config.SmtpOptions -> Smtp.Transporter)
    (to : Smtp.Recipients) (subject body : string) (options : Smtp.SendEmailOptions) :
  (snd (Smtp.sendEmail env nodemailer to subject body options) = [] <->
   (env !! "SMTP_HOST" = None \/ env !! "SMTP_HOST" = Some "") \/
   (env !! "EMAIL_ADDRESS" = None \/ env !! "EMAIL_ADDRESS" = Some ""))
  /\ (env !! "SMTP_HOST" = None \/ env !! "SMTP_HOST" = Some "" ->
      Smtp.sendEmail env nodemailer to subject body options
      = (Throw (mkError "SMTP_HOST is required"), []))
  /\ (forall h, env !! "SMTP_HOST" = Some h -> h <> "" ->
      env !! "EMAIL_ADDRESS" = None \/ env !! "EMAIL_ADDRESS" = Some "" ->
      Smtp.sendEmail env nodemailer to subject body options
      = (Throw (mkError "EMAIL_ADDRESS is required"), [])).
Proof.
  rewrite <- !truthy_opt_false. unfold Smtp.sendEmail.
  destruct (getSmtpConfig_cases env) as [[Hh Hcfg] | [Hh Hcfg]]; rewrite Hcfg, Hh.
  - split; [| split].
    + split; [intros _; left |]; reflexivity.
    + reflexivity.
    + intros h Hhost Hne. rewrite Hhost, (truthy_opt_Some h Hne) in Hh. discriminate Hh.
  - destruct (truthy_opt (env !! "EMAIL_ADDRESS")) eqn:He; simpl; (split; [| split]).
    + split; [discriminate | intros [H | H]; discriminate H].
    + discriminate.
    + intros h _ _ H. apply truthy_opt_false in H. congruence.
    + split; [intros _; right |]; reflexivity.
    + discriminate.
    + reflexivity.
Qed.

(** ** One session per operation *)

Section SessionShape.
Import Config Imap Spec Trace.

Lemma connect_then (Q : Call -> Prop) {A} (answer : result unit) (k : unit -> M A) :
  (forall u, emits Q (k u)) ->
  exists l, snd (bind (await Connect answer) k []) = Connect :: l /\ Forall Q l.
Proof.
  intros Hk. unfold bind, await. destruct answer as [u | e]; simpl.
  - destruct (Hk u [Connect]) as (l & Hl & HQ). exists l. split; assumption.
  - exists []. split; [reflexivity | constructor].
Qed.

Lemma primary_shape {A} (client : ImapFlow) (op : Operation A) :
  exists middle, calls (primary client op) = Connect :: middle /\ Forall inSession middle.
Proof.
  unfold calls, run.
  destruct op; simpl;
    unfold listMailboxes_body, listEmails_body, fetchEmail_body, searchEmails_body,
      moveEmail_body, deleteEmail_body, downloadText;
    apply connect_then; intros u; cbv zeta;
    repeat first
      [ emits_step
      | match goal with
        | |- emits _ (await _ _) => apply emits_await; split; discriminate
        end ].
Qed.

End SessionShape.

(** X27. One session per operation.  Whenever a client is created, the
    calls of an operation are: one [connect], first; then calls that are
    neither [connect] nor [logout]; then one [logout], last.  No operation
    connects twice, logs out twice, or goes on after logging out. *)
Theorem one_session_per_operation (env : gmap string string)
    (imapflow : Config.ImapFlowOptions -> Imap.ImapFlow)
    (A : Type) (op : Spec.Operation A) (cfg : Config.ImapFlowOptions) :
  Config.getImapConfig env = Ok cfg ->
  exists middle,
    calls (Spec.perform env imapflow op) = Connect :: middle ++ [Logout]
    /\ Forall Trace.inSession middle.
Proof.
  intros Hcfg. destruct (primary_shape (imapflow cfg) op) as (middle & Hcalls & Hmid).
  exists middle. split; [| exact Hmid].
  unfold calls at 1. rewrite (perform_run env imapflow op cfg Hcfg). simpl.
  rewrite Hcalls. reflexivity.
Qed.

(** Fetching the message with two bodies. *)
Lemma one_session_per_operation_witness :
  exists middle,
    calls (Imap.fetchEmail Sample.env_defaults (fun _ => Examples.client_full) "INBOX" 42)
    = Connect :: middle ++ [Logout]
    /\ length middle = 4%nat.
Proof.
  destruct (validated_has_client Sample.env_defaults eq_refl) as [cfg Hcfg].
  destruct (one_session_per_operation Sample.env_defaults (fun _ => Examples.client_full)
              _ (Spec.FetchEmail "INBOX" 42) cfg Hcfg) as (middle & Hcalls & _).
  exists middle. split; [exact Hcalls |].
  assert (Hlen : length (calls (Spec.perform Sample.env_defaults
                                  (fun _ => Examples.client_full)
                                  (Spec.FetchEmail "INBOX" 42))) = 6%nat)
    by (vm_compute; reflexivity).
  rewrite Hcalls in Hlen. simpl in Hlen. rewrite length_app in Hlen. simpl in Hlen. lia.
Defined.

(** X28. No partial page.  When the fetch of the window is rejected,
    [listEmails] throws that error, after logging out; and likewise
    [searchEmails] when the fetch of the matching messages is rejected. *)
Theorem fetch_failure_is_thrown (env : gmap string string)
    (imapflow : Config.ImapFlowOptions -> Imap.ImapFlow) (cfg : Config.ImapFlowOptions)
    (mailbox : string) (mb : Imap.MailboxObject) (e : Error) :
  Config.getImapConfig env = Ok cfg ->
  Imap.connect_ (imapflow cfg) = Ok tt ->
  Imap.mailboxOpen_ (imapflow cfg) mailbox true = Ok mb ->
  (forall range byUid, Imap.fetchAll_ (imapflow cfg) range byUid = Throw e) ->
  (forall page pageSize w,
     1 <= page -> 1 <= pageSize ->
     Spec.pageWindow (Imap.mbox_exists mb) page pageSize = Some w ->
     run (Imap.listEmails env imapflow mailbox page pageSize)
     = (Throw e, [Connect; MailboxOpen mailbox true;
                  FetchAll (Spec.sequenceRange w) false; Logout]))
  /\ (forall criteria limit uids,
        Imap.search_ (imapflow cfg) (Imap.buildQuery criteria) = Ok (Some uids) ->
        uids <> [] ->
        outcome (Imap.searchEmails env imapflow mailbox criteria limit) = Throw e
        /\ last (calls (Imap.searchEmails env imapflow mailbox criteria limit))
           = Some Logout).
Proof.
  intros Hcfg Hc Ho Hf. split.
  - intros page pageSize w HP HS Hw.
    pose proof (perform_run env imapflow (Spec.ListEmails mailbox page pageSize)
                  cfg Hcfg) as Hp.
    simpl in Hp. rewrite Hp. unfold outcome, calls.
    rewrite (listEmails_body_run _ mailbox page pageSize _ Hc Ho). simpl.
    destruct (pageWindow_Some _ _ _ _ HP HS Hw) as [Hcond ->].
    rewrite Hcond, Hf. reflexivity.
  - intros criteria limit uids Hs Hne.
    pose proof (perform_run env imapflow (Spec.SearchEmails mailbox criteria limit)
                  cfg Hcfg) as Hp.
    simpl in Hp. unfold outcome at 1, calls at 1. rewrite Hp. unfold outcome, calls.
    rewrite (searchEmails_body_run _ mailbox criteria limit mb uids Hc Ho Hs Hne).
    rewrite Hf. split; reflexivity.
Qed.

(** Page 5 of 95 messages on a server that rejects every fetch. *)
Lemma fetch_failure_is_thrown_witness :
  run (Imap.listEmails Sample.env_defaults (fun _ => Examples.client_fetch_fails)
         "INBOX" 5 20)
  = (Throw Examples.fetch_rejected,
     [Connect; MailboxOpen "INBOX" true; FetchAll "1:15" false; Logout])
  /\ outcome (Imap.searchEmails Sample.env_defaults (fun _ => Examples.client_fetch_fails)
                "INBOX" Sample.no_criteria 2)
     = Throw Examples.fetch_rejected.
Proof.
  destruct (validated_has_client Sample.env_defaults eq_refl) as [cfg Hcfg].
  destruct (fetch_failure_is_thrown Sample.env_defaults
              (fun _ => Examples.client_fetch_fails) cfg "INBOX"
              {| Imap.mbox_exists := 95 |} Examples.fetch_rejected
              Hcfg eq_refl eq_refl (fun _ _ => eq_refl)) as [Hlist Hsearch].
  split.
  - exact (Hlist 5 20 (1, 15) ltac:(lia) ltac:(lia) eq_refl).
  - exact (proj1 (Hsearch Sample.no_criteria 2 [3; 5; 8] eq_refl ltac:(discriminate))).
Defined.

(** Searching and moving on a server where no mailbox can be opened. *)
Lemma mailbox_failure_stops_operation_witness :
  outcome (Imap.searchEmails Sample.env_defaults (fun _ => Examples.client_no_mailbox)
             "Nowhere" Sample.no_criteria 50)
  = Throw Examples.no_such_mailbox
  /\ Forall (fun c => Trace.needsMailbox c = false)
       (calls (Imap.moveEmail Sample.env_defaults (fun _ => Examples.client_no_mailbox)
                 "Nowhere" 42 "Archive")).
Proof.
  destruct (validated_has_client Sample.env_defaults eq_refl) as [cfg Hcfg].
  pose proof (fun A (op : Spec.Operation A) =>
                mailbox_failure_stops_operation Sample.env_defaults
                  (fun _ => Examples.client_no_mailbox) A op cfg Examples.no_such_mailbox
                  Hcfg eq_refl (fun _ _ => eq_refl)) as Hstop.
  split.
  - exact (proj2 (Hstop _ (Spec.SearchEmails "Nowhere" Sample.no_criteria 50))).
  - exact (proj1 (Hstop _ (Spec.MoveEmail "Nowhere" 42 "Archive"))).
Defined.
